(** * A shallow embedding of the Cytec relay-matrix driver (cytec.py)

    The driver talks to a Cytec switching matrix over a VISA serial
    resource.  We model the data it handles (the connection matrix of
    optional booleans, the command tokens, the status bytes), the pure
    helpers ([transpose], [set_connection], [splitsum]) and the session
    operations ([silenced], [connections], [set_connections]) as
    explicit state passing over a model of the resource. *)

From Stdlib Require Import Ascii String Lia.
From stdpp Require Import base list strings pretty.


(** ** Data model *)

(** [CytecConnections = list[list[Optional[bool]]]]: a cell is
    [Some true] (connected), [Some false] (disconnected) or [None]
    (unknown).  Rows are modules, columns are outputs. *)
Abbreviation cell := (option bool).
Abbreviation CytecConnections := (list (list cell)).

Definition MAX_COMMAND_LENGTH : nat := 60.

(** Errors raised by the Python code that the claims can observe. *)
Inductive error :=
| VisaIOError        (* read_bytes timed out: fewer bytes than requested *)
| TypeError          (* [p ^ q] with an unknown ([None]) cell *)
| IndexError         (* [new_c[module][output]] out of range *)
| CytecSwitchingError.

Abbreviation result A := (error + A)%type.

(** Exceptions propagate: the error monad on [sum error]. *)
Definition rbind {A B} (m : result A) (k : A -> result B) : result B :=
  match m with inl e => inl e | inr x => k x end.

Notation "'let!' x := m 'in' k" := (rbind m (fun x => k))
  (at level 200, x name, m at level 100, k at level 200).

(** ** [transpose(x) = list(map(list, zip( *x)))]

    [zip] over the rows stops at the shortest row; [zip()] of no rows is
    empty. *)
Definition heads {A} (rows : list (list A)) : option (list A * list (list A)) :=
  mapM (fun r => match r with [] => None | x :: r' => Some (x, r') end) rows
    ≫= fun ps => Some (map fst ps, map snd ps).

Fixpoint transpose_go {A} (fuel : nat) (rows : list (list A)) : list (list A) :=
  match fuel with
  | O => []
  | S f =>
      match heads rows with
      | None => []
      | Some (h, t) => h :: transpose_go f t
      end
  end.

Definition transpose {A} (rows : list (list A)) : list (list A) :=
  match rows with
  | [] => []
  | r :: _ => transpose_go (length r) rows
  end.

(** ** [set_connection], [latch], [unlatch]

    The matrix handed to [set_connection] is a Python list of row lists,
    and two of its entries may be one and the same list object (as in
    [[[False] * n] * m]).  A [Matrix] keeps that layout: the row objects,
    and for each module the row object its entry refers to.  [deepcopy]
    copies each row object once and keeps the sharing (its memo), so the
    copy has the same layout.  [new_c[module][output] = value] then
    changes the row object that entry [module] refers to, and with it
    every entry that refers to the same object; an index out of range
    raises [IndexError]. *)
Record Matrix := mkMatrix {
  row_objects : list (list cell);
  row_refs : list nat
}.

(** The value of a matrix, as [==] and the printing see it; [None] for a
    reference to no row object, which a Python list never has. *)
Definition contents (c : Matrix) : option CytecConnections :=
  mapM (fun p => row_objects c !! p) (row_refs c).

(** A matrix whose rows are distinct objects, as a list display or
    [transpose] builds it. *)
Definition fresh_rows (v : CytecConnections) : Matrix :=
  mkMatrix v (seq 0 (length v)).

Definition deepcopy (c : Matrix) : Matrix :=
  mkMatrix (row_objects c) (row_refs c).

Definition set_connection (c : Matrix) (module output : nat) (value : bool) : result Matrix :=
  let new_c := deepcopy c in
  match row_refs new_c !! module with
  | None => inl IndexError
  | Some p =>
      match row_objects new_c !! p with
      | None => inl IndexError
      | Some row =>
          match row !! output with
          | None => inl IndexError
          | Some _ =>
              inr (mkMatrix (<[p := <[output := Some value]> row]> (row_objects new_c))
                            (row_refs new_c))
          end
      end
  end.

Definition latch c m o := set_connection c m o true.
Definition unlatch c m o := set_connection c m o false.

(** What [set_connection] does to the value of a matrix whose rows are
    distinct objects (lemma [set_connection_unshared]). *)
Definition set_cell (c : CytecConnections) (module output : nat) (value : bool)
    : result CytecConnections :=
  match c !! module with
  | None => inl IndexError
  | Some row =>
      match row !! output with
      | None => inl IndexError
      | Some _ => inr (<[module := <[output := Some value]> row]> c)
      end
  end.

(** ** [splitsum(xs, maximum_sum, on)]

    [result, t = [[]], 0]; for each [x], either a new frame [[x]] is
    appended (when [t + n > maximum_sum]) or [x] is appended to
    [result[-1]]. *)
Fixpoint append_last {A} (result : list (list A)) (x : A) : list (list A) :=
  match result with
  | [] => []
  | [f] => [f ++ [x]]
  | f :: rest => f :: append_last rest x
  end.

Definition splitsum_step {A} (maximum_sum : nat) (on : A -> nat)
    (st : list (list A) * nat) (x : A) : list (list A) * nat :=
  let '(result, t) := st in
  let n := on x in
  if decide (maximum_sum < t + n) then (result ++ [[x]], n)
  else (append_last result x, t + n).

Definition splitsum {A} (xs : list A) (maximum_sum : nat) (on : A -> nat)
    : list (list A) :=
  fst (fold_left (splitsum_step maximum_sum on) xs ([[]], 0)).

(** ** The diff of [set_connections]

    [commands = [[("L" if q else "U", i, j)
                  for j, (p, q) in enumerate(zip(xs, ys)) if p ^ q]
                 for i, (xs, ys) in enumerate(zip(cur, new))]]

    [p ^ q] on two booleans is their exclusive or; with [None] on either
    side Python raises [TypeError]. *)
Inductive op := L | U.

Definition op_string (o : op) : string :=
  match o with L => "L" | U => "U" end%string.

Definition command := (op * nat * nat)%type.

Definition cell_xor (p q : cell) : result bool :=
  match p, q with
  | Some a, Some b => inr (xorb a b)
  | _, _ => inl TypeError
  end.

Definition truthy (q : cell) : bool :=
  match q with Some true => true | _ => false end.

Fixpoint row_commands (i j : nat) (xs ys : list cell) : result (list command) :=
  match xs, ys with
  | p :: xs', q :: ys' =>
      let! d := cell_xor p q in
      let! rest := row_commands i (S j) xs' ys' in
      inr (if d then ((if truthy q then L else U), i, j) :: rest else rest)
  | _, _ => inr []
  end.

Fixpoint diff_commands (i : nat) (cur new : CytecConnections)
    : result (list (list command)) :=
  match cur, new with
  | xs :: cur', ys :: new' =>
      let! r := row_commands i 0 xs ys in
      let! rest := diff_commands (S i) cur' new' in
      inr (r :: rest)
  | _, _ => inr []
  end.

Definition commands (cur new : CytecConnections) : result (list (list command)) :=
  diff_commands 0 cur new.

(** [f"{command}{i} {j}" if n == 0 else f"{command}{j}"] *)
Definition token (first : bool) (c : command) : string :=
  let '(o, i, j) := c in
  if first then (op_string o ++ pretty i ++ " " ++ pretty j)%string
  else (op_string o ++ pretty j)%string.

Fixpoint run_tokens (first : bool) (cs : list command) : list string :=
  match cs with
  | [] => []
  | c :: cs' => token first c :: run_tokens false cs'
  end.

Definition grouped_commands (cmds : list (list command)) : list string :=
  concat (map (run_tokens true) cmds).

(** [packs = splitsum(zip(grouped_commands, lengths), MAX_COMMAND_LENGTH,
    on = lambda x: x[1])] with [lengths = len(c) + 1]. *)
Definition packs (toks : list string) : list (list (string * nat)) :=
  splitsum (map (fun t => (t, String.length t + 1)) toks) MAX_COMMAND_LENGTH snd.

(** [[";".join([c for (c, _) in pack]) for pack in packs]] *)
Definition packed_commands (toks : list string) : list string :=
  map (fun pack => String.concat ";" (map fst pack)) (packs toks).

(** ** The VISA resource

    The resource is an object shared by every [Cytec] value built from it.
    We keep the part of it the driver observes: the commands written to it
    (in order) and the bytes the instrument has still to send.
    [read_bytes(count)] returns exactly [count] bytes or times out with
    [VisaIOError].  [write] is the write that returns: a [VisaIOError]
    raised by [resource.write] (unguarded in the source) is not modelled,
    so the statements below about a path that only writes are about the
    calls that return. *)
Record Resource := mkResource {
  written : list string;
  pending : string
}.

Definition write (r : Resource) (cmd : string) : Resource :=
  mkResource (written r ++ [cmd]) (pending r).

Definition read_bytes (r : Resource) (count : nat) : result (string * Resource) :=
  if decide (count <= String.length (pending r)) then
    inr (substring 0 count (pending r),
         mkResource (written r) (substring count (String.length (pending r) - count) (pending r)))
  else inl VisaIOError.

(** [@dataclass CytecState] and [@dataclass Cytec]. *)
Record CytecState := mkCytecState {
  modules : nat;
  outputs : nat;
  answerback : bool;
  echo : bool;
  verbose : bool;
  connections_of : CytecConnections
}.

Record Cytec := mkCytec {
  resource : Resource;
  state : CytecState
}.

(** [replace(s, connections = cn)] *)
Definition with_connections (s : CytecState) (cn : CytecConnections) : CytecState :=
  mkCytecState (modules s) (outputs s) (answerback s) (echo s) (verbose s) cn.

(** [silenced(c, force)] *)
Definition silenced (c : Cytec) (force : bool) : Cytec :=
  let r := resource c in
  let s := state c in
  let r' := if force || answerback s || echo s || verbose s
            then write r "A0 73;E0 73;V0 73" else r in
  mkCytec r' (mkCytecState (modules s) (outputs s) false false false (connections_of s)).

(** ** Decoding the status reply

    [relay_states = {b"0"[0]: False, b"1"[0]: True}] and
    [relay_states.get(b, None)]. *)
Definition CR : ascii := "013"%char.

Definition relay_state (b : ascii) : cell :=
  if decide (b = "0"%char) then Some false
  else if decide (b = "1"%char) then Some true
  else None.

(** [bytes.split(b"\r")]: the pieces between separators, so a trailing
    separator yields a final empty piece and [b""] splits to [[b""]]. *)
Fixpoint split_cr (s : string) : list string :=
  match s with
  | EmptyString => [EmptyString]
  | String c s' =>
      let rest := split_cr s' in
      if decide (c = CR) then EmptyString :: rest
      else match rest with
           | seg :: rs => String c seg :: rs
           | [] => [String c EmptyString]
           end
  end.

(** [[[relay_states.get(b, None) for b in columns]
      for columns in status.split(b"\r")[:-1]]] *)
Definition status_rows (status : string) : list (list cell) :=
  map (fun columns => map relay_state (list_ascii_of_string columns))
      (removelast (split_cr status)).

Definition decode_status (status : string) : CytecConnections :=
  transpose (status_rows status).

(** [connections(c)]: silence, write ["S"], read
    [(modules + 1) * outputs] bytes and decode them.  Timing and printing
    are not observable here. *)
Definition connections (c : Cytec) : result Cytec :=
  let cn := silenced c false in
  let s := state cn in
  let r := write (resource cn) "S" in
  let! p := read_bytes r ((modules s + 1) * outputs s) in
  let '(status, r') := p in
  inr (mkCytec r' (with_connections s (decode_status status))).

(** ** [set_connections]

    The loop writes each packed command in order to the shared resource
    ([cpre.resource] is [c.resource]).  The busy wait for the settling
    delay has no effect on the values.  With [verify_after] the result is
    the re-read status; the comparison with [new_connections] and the
    [raise CytecSwitchingError()] are commented out in the source. *)
Definition write_all (r : Resource) (cmds : list string) : Resource :=
  fold_left write cmds r.

Definition set_connections_go (c : Cytec) (new_connections : CytecConnections)
    (verify_after : bool) : result Cytec :=
  let! cmds := commands (connections_of (state c)) new_connections in
  let packed := packed_commands (grouped_commands cmds) in
  let cpre := silenced c false in
  let r := write_all (resource cpre) packed in
  if verify_after then connections (mkCytec r (state cpre))
  else inr (mkCytec r (with_connections (state c) new_connections)).

Definition set_connections (c : Cytec) (new_connections : CytecConnections)
    (update_connections_first verify_after : bool) : result Cytec :=
  if update_connections_first then
    let! c' := connections c in
    set_connections_go c' new_connections verify_after
  else set_connections_go c new_connections verify_after.

(** ** [connections_string(c)]

    [["1" if x else "0" for x in xs]]: only a connected cell is truthy, so
    both a disconnected and an unknown cell print as ["0"].  The lines are
    the rows of [transpose(c)] (one per output) joined by ["\n"]. *)
Definition bit_char (x : cell) : ascii := if truthy x then "1"%char else "0"%char.

Definition status_line (xs : list cell) : string :=
  string_of_list_ascii (map bit_char xs).

Definition LF : ascii := "010"%char.

Definition connections_string (c : CytecConnections) : string :=
  String.concat (String LF EmptyString) (map status_line (transpose c)).

(** ** Handshake and configuration of [from_serial_resource]

    This part runs before the first status read, over [resource.query],
    [resource.write] and [resource.read_bytes].  What the instrument does
    on each exchange is a script of events: an answer (the bytes it sends,
    [query] stripping the read terminator), or a VISA error, flagged when
    [resource.last_status] is [error_serial_framing].  An exhausted script
    is a timeout, which is not a framing error. *)
Inductive visa_event :=
| Answer (s : string)
| Fault (framing : bool).

Record Port := mkPort {
  port_written : list string;
  port_events : list visa_event
}.

(** The outcome of a VISA call: the value, or a [VisaIOError] with the
    [last_status] it leaves (framing or not); the port is returned in
    both cases, since the call has happened either way. *)
Definition visa_result A := (bool + A)%type.

Definition next_event (p : Port) : visa_event * Port :=
  match port_events p with
  | [] => (Fault false, p)
  | e :: es => (e, mkPort (port_written p) es)
  end.

Definition port_write (p : Port) (cmd : string) : Port :=
  mkPort (port_written p ++ [cmd]) (port_events p).

Definition port_query (p : Port) (cmd : string) : visa_result string * Port :=
  let '(e, p') := next_event (port_write p cmd) in
  match e with
  | Answer s => (inr s, p')
  | Fault fr => (inl fr, p')
  end.

(** [read_bytes(count)]: the first [count] bytes of the answer; fewer
    bytes is a timeout.  Bytes beyond [count] stay to be read. *)
Definition port_read_bytes (p : Port) (count : nat) : visa_result string * Port :=
  let '(e, p') := next_event p in
  match e with
  | Answer s =>
      if decide (count <= String.length s) then
        let rest := substring count (String.length s - count) s in
        (inr (substring 0 count s),
         match rest with
         | EmptyString => p'
         | _ => mkPort (port_written p') (Answer rest :: port_events p')
         end)
      else (inl false, p')
  | Fault fr => (inl fr, p')
  end.

(** Outcomes: [CytecInitializationError], or a [VisaIOError] that escapes
    the handler (the query retried after a framing error is not guarded). *)
Inductive init_error :=
| CytecInitializationError
| InitVisaIOError.

Definition answerback_only : string := "A0 73;E0 73;V0 73;A1 73".

Definition system_config (s : CytecState) : string :=
  String.concat ";" ["P2 1 73"; "P10 " ++ pretty (modules s) ++ " 73";
                     "P20 " ++ pretty (outputs s) ++ " 73"]%string.

Definition config_ack : string :=
  String "0" (String CR (String "0" (String CR (String "0" (String CR EmptyString))))).

(** The answerback probe, with its one retry after a framing error. *)
Definition probe (p : Port) : (init_error + Port)%type :=
  let '(r, p1) := port_query p answerback_only in
  match r with
  | inr rv => if decide (rv = "0"%string) then inr p1 else inl CytecInitializationError
  | inl false => inl CytecInitializationError
  | inl true =>
      let '(r2, p2) := port_query p1 answerback_only in
      match r2 with
      | inr rv => if decide (rv = "0"%string) then inr p2 else inl CytecInitializationError
      | inl _ => inl InitVisaIOError
      end
  end.

(** The configuration write and its three acknowledgements. *)
Definition configure (p : Port) (s : CytecState) : (init_error + Port)%type :=
  let p1 := port_write p (system_config s) in
  let '(r, p2) := port_read_bytes p1 (2 * 3) in
  match r with
  | inr rv => if decide (rv = config_ack) then inr p2 else inl CytecInitializationError
  | inl _ => inl CytecInitializationError
  end.

(** [from_serial_resource] up to the first status read: the session
    [Cytec(resource, state)] it then passes to [connections]. *)
Definition from_serial_resource_setup (p : Port) (s : CytecState) : (init_error + Port)%type :=
  match probe p with
  | inl e => inl e
  | inr p' => configure p' s
  end.

(** The reply [connections] expects, built from a fully known matrix: per
    output, the line [connections_string] prints for it (one byte per
    module) followed by the read terminator. *)
Definition reply_of_lines (lines : list string) : string :=
  fold_right (fun l acc => (l ++ String CR acc)%string) EmptyString lines.

Definition status_reply (m : list (list bool)) : string :=
  reply_of_lines (map status_line (transpose (map (map Some) m))).

(** ** Facts about the packer *)

Section Splitsum.
Context {A : Type} (maximum_sum : nat) (on : A -> nat).

Definition frame_sum (f : list A) : nat := sum_list_with on f.

(** A frame respects the bound, or it is one item that alone exceeds it. *)
Definition frame_ok (f : list A) : Prop :=
  frame_sum f <= maximum_sum \/ exists x, f = [x] /\ maximum_sum < on x.

Lemma append_last_snoc (init : list (list A)) (f : list A) (x : A) :
  append_last (init ++ [f]) x = init ++ [f ++ [x]].
Proof.
  induction init as [|g init IH]; [reflexivity|].
  simpl. rewrite IH. destruct init; reflexivity.
Qed.

Lemma splitsum_fold_inv (xs : list A) :
  exists init last,
    fold_left (splitsum_step maximum_sum on) xs ([[]], 0) = (init ++ [last], frame_sum last)
    /\ concat (init ++ [last]) = xs
    /\ Forall frame_ok (init ++ [last]).
Proof.
  induction xs as [|x xs IH] using rev_ind.
  - exists [], []. split; [reflexivity|]. split; [reflexivity|].
    constructor; [|constructor]. left. unfold frame_sum. simpl. lia.
  - destruct IH as (init & last & Hf & Hc & Hok).
    rewrite fold_left_app, Hf. simpl.
    case_decide as Hlt.
    + exists (init ++ [last]), [x]. split.
      { unfold frame_sum. simpl. f_equal. lia. }
      split.
      { rewrite concat_app, Hc. simpl. rewrite ?app_nil_r. reflexivity. }
      apply Forall_app. split; [exact Hok|]. constructor; [|constructor].
      destruct (decide (on x <= maximum_sum)) as [Hle|Hgt].
      * left. unfold frame_sum. simpl. lia.
      * right. exists x. split; [reflexivity|lia].
    + exists init, (last ++ [x]). rewrite append_last_snoc. split.
      { unfold frame_sum. rewrite sum_list_with_app. simpl. f_equal. lia. }
      split.
      { rewrite <- Hc, !concat_app. simpl. rewrite !app_nil_r, app_assoc.
        reflexivity. }
      apply Forall_app in Hok as [Hi _]. apply Forall_app. split; [exact Hi|].
      constructor; [|constructor]. left. unfold frame_sum.
      rewrite sum_list_with_app. unfold frame_sum in Hlt. simpl. lia.
Qed.

Lemma splitsum_concat (xs : list A) : concat (splitsum xs maximum_sum on) = xs.
Proof.
  unfold splitsum. destruct (splitsum_fold_inv xs) as (init & last & Hf & Hc & _).
  rewrite Hf. exact Hc.
Qed.

Lemma splitsum_frames_ok (xs : list A) : Forall frame_ok (splitsum xs maximum_sum on).
Proof.
  unfold splitsum. destruct (splitsum_fold_inv xs) as (init & last & Hf & _ & Hok).
  rewrite Hf. exact Hok.
Qed.

(** Frames already closed are never touched again. *)
Lemma splitsum_fold_keeps_init (xs : list A) (init : list (list A)) (last : list A) (t : nat) :
  exists rest t', fold_left (splitsum_step maximum_sum on) xs (init ++ [last], t) = (init ++ rest, t').
Proof.
  revert init last t. induction xs as [|x xs IH]; intros init last t; simpl.
  - exists [last], t. reflexivity.
  - case_decide.
    + destruct (IH (init ++ [last]) [x] (on x)) as (rest & t' & ->).
      exists ([last] ++ rest), t'. rewrite app_assoc. reflexivity.
    + rewrite append_last_snoc. apply IH.
Qed.

(** An item heavier than the bound ends up alone in a frame. *)
Lemma splitsum_heavy_singleton (pre post : list A) (x : A) :
  maximum_sum < on x -> [x] ∈ splitsum (pre ++ x :: post) maximum_sum on.
Proof.
  intros Hx. unfold splitsum. rewrite fold_left_app.
  destruct (splitsum_fold_inv pre) as (init & last & Hf & _ & _). rewrite Hf. simpl.
  case_decide; [|lia].
  destruct post as [|y post]; simpl.
  - apply elem_of_app. right. left.
  - case_decide; [|lia].
    destruct (splitsum_fold_keeps_init post ((init ++ [last]) ++ [[x]]) [y] (on y))
      as (rest & t' & Hr).
    rewrite Hr. simpl.
    apply elem_of_app. left. apply elem_of_app. right. left.
Qed.
End Splitsum.

(** ** Facts about the diff on fully known matrices *)

(** A matrix with no unknown cell. *)
Definition lift (a : list (list bool)) : CytecConnections := map (map Some) a.

(** The diff computed on booleans, once the [TypeError] case is ruled out. *)
Fixpoint row_commands_b (i j : nat) (xs ys : list bool) : list command :=
  match xs, ys with
  | p :: xs', q :: ys' =>
      let rest := row_commands_b i (S j) xs' ys' in
      if xorb p q then ((if q then L else U), i, j) :: rest else rest
  | _, _ => []
  end.

Fixpoint diff_commands_b (i : nat) (cur new : list (list bool)) : list (list command) :=
  match cur, new with
  | xs :: cur', ys :: new' => row_commands_b i 0 xs ys :: diff_commands_b (S i) cur' new'
  | _, _ => []
  end.

Lemma row_commands_lift (i j : nat) (xs ys : list bool) :
  row_commands i j (map Some xs) (map Some ys) = inr (row_commands_b i j xs ys).
Proof.
  revert j ys. induction xs as [|p xs IH]; intros j [|q ys]; try reflexivity.
  simpl. rewrite IH. destruct p, q; reflexivity.
Qed.

Lemma diff_commands_lift (i : nat) (a b : list (list bool)) :
  diff_commands i (lift a) (lift b) = inr (diff_commands_b i a b).
Proof.
  revert i b. induction a as [|xs a IH]; intros i [|ys b]; try reflexivity.
  simpl. rewrite row_commands_lift. simpl. rewrite IH. reflexivity.
Qed.

(** Specification of the diff read from the spec's words: over every
    coordinate, module-major then output-major, one command where the
    cells differ, [L] when the target cell is connected. *)
Definition cell_b (m : list (list bool)) (i j : nat) : bool := nth j (nth i m []) false.

Definition diff_spec (cur new : list (list bool)) : list command :=
  flat_map (fun i =>
    flat_map (fun j =>
      if Bool.eqb (cell_b cur i j) (cell_b new i j) then []
      else [((if cell_b new i j then L else U), i, j)])
      (seq 0 (length (nth i new []))))
    (seq 0 (length new)).

Lemma flat_map_seq_shift {B} (f : nat -> list B) (k n : nat) :
  flat_map f (seq (S k) n) = flat_map (fun j => f (S j)) (seq k n).
Proof. rewrite <- seq_shift, !flat_map_concat_map, map_map. reflexivity. Qed.

Lemma row_commands_b_spec (i j : nat) (xs ys : list bool) :
  length xs = length ys ->
  row_commands_b i j xs ys =
  flat_map (fun j' =>
    if Bool.eqb (nth j' xs false) (nth j' ys false) then []
    else [((if nth j' ys false then L else U), i, j + j')])
    (seq 0 (length ys)).
Proof.
  revert j ys. induction xs as [|p xs IH]; intros j [|q ys] Hlen; try discriminate; [reflexivity|].
  simpl in Hlen. simpl. rewrite flat_map_seq_shift, (IH (S j) ys) by lia. simpl.
  rewrite Nat.add_0_r.
  replace (flat_map _ (seq 0 (length ys))) with
    (flat_map (fun j' => if Bool.eqb (nth j' xs false) (nth j' ys false) then []
                         else [((if nth j' ys false then L else U), i, j + S j')])
              (seq 0 (length ys))).
  2:{ apply flat_map_ext. intros j'. rewrite <- plus_n_Sm. reflexivity. }
  destruct p, q; reflexivity.
Qed.

Definition same_shape (a b : list (list bool)) : Prop :=
  Forall2 (fun r s => length r = length s) a b.

Lemma diff_commands_b_spec (i : nat) (a b : list (list bool)) :
  same_shape a b ->
  concat (diff_commands_b i a b) =
  flat_map (fun i' =>
    flat_map (fun j =>
      if Bool.eqb (cell_b a i' j) (cell_b b i' j) then []
      else [((if cell_b b i' j then L else U), i + i', j)])
      (seq 0 (length (nth i' b []))))
    (seq 0 (length b)).
Proof.
  intros Hs. revert i. induction Hs as [|xs ys a b Hl Hs IH]; intros i; [reflexivity|].
  simpl. rewrite flat_map_seq_shift, IH, row_commands_b_spec by exact Hl.
  f_equal.
  - apply flat_map_ext. intros j. unfold cell_b. simpl. rewrite Nat.add_0_r. reflexivity.
  - apply flat_map_ext. intros i'. unfold cell_b. simpl.
    apply flat_map_ext. intros j. rewrite <- plus_n_Sm. reflexivity.
Qed.

(** Applying commands in order: [latch] for [L], [unlatch] for [U]. *)
Definition apply_command (m : Matrix) (c : command) : result Matrix :=
  let '(o, i, j) := c in
  match o with L => latch m i j | U => unlatch m i j end.

Fixpoint apply_commands (m : Matrix) (cs : list command) : result Matrix :=
  match cs with
  | [] => inr m
  | c :: cs' => let! m' := apply_command m c in apply_commands m' cs'
  end.

(** The same on the value of a matrix with distinct rows. *)
Definition apply_cell_command (m : CytecConnections) (c : command) : result CytecConnections :=
  let '(o, i, j) := c in
  match o with L => set_cell m i j true | U => set_cell m i j false end.

Fixpoint apply_cell_commands (m : CytecConnections) (cs : list command) : result CytecConnections :=
  match cs with
  | [] => inr m
  | c :: cs' => let! m' := apply_cell_command m c in apply_cell_commands m' cs'
  end.

Lemma apply_commands_app (m : CytecConnections) (cs1 cs2 : list command) :
  apply_cell_commands m (cs1 ++ cs2) = let! m' := apply_cell_commands m cs1 in apply_cell_commands m' cs2.
Proof.
  revert m. induction cs1 as [|c cs1 IH]; intros m; [reflexivity|].
  simpl. destruct (apply_cell_command m c); [reflexivity|]. apply IH.
Qed.

Lemma insert_middle {B} (P Q : list B) (x y : B) :
  <[length P := y]> (P ++ x :: Q) = P ++ y :: Q.
Proof.
  replace (length P) with (length P + 0) by lia. rewrite insert_app_r. reflexivity.
Qed.

Lemma set_cell_middle (P Q : CytecConnections) (R1 R2 : list cell) (c : cell) (v : bool) :
  set_cell (P ++ (R1 ++ c :: R2) :: Q) (length P) (length R1) v
  = inr (P ++ (R1 ++ Some v :: R2) :: Q).
Proof.
  unfold set_cell. rewrite list_lookup_middle by reflexivity. cbv beta iota.
  rewrite list_lookup_middle by reflexivity. cbv beta iota. rewrite !insert_middle. reflexivity.
Qed.

Lemma apply_row_commands (xs ys : list bool) (P Q : CytecConnections) (R1 R2 : list cell) :
  length xs = length ys ->
  apply_cell_commands (P ++ (R1 ++ map Some xs ++ R2) :: Q) (row_commands_b (length P) (length R1) xs ys)
  = inr (P ++ (R1 ++ map Some ys ++ R2) :: Q).
Proof.
  revert ys R1. induction xs as [|p xs IH]; intros [|q ys] R1 Hl; try discriminate; [reflexivity|].
  simpl in Hl. cbn [map row_commands_b app].
  assert (HR : S (length R1) = length (R1 ++ [Some q])) by (rewrite length_app; simpl; lia).
  assert (Hsh : R1 ++ Some q :: map Some xs ++ R2 = (R1 ++ [Some q]) ++ map Some xs ++ R2)
    by (rewrite <- app_assoc; reflexivity).
  destruct (xorb p q) eqn:Hx.
  - assert (Hc : apply_cell_command (P ++ (R1 ++ Some p :: map Some xs ++ R2) :: Q)
                   ((if q then L else U), length P, length R1)
                 = inr (P ++ (R1 ++ Some q :: map Some xs ++ R2) :: Q))
      by (destruct q; apply set_cell_middle).
    cbn [apply_cell_commands]. rewrite Hc. cbn [rbind].
    rewrite HR, Hsh, IH by lia. rewrite <- app_assoc. reflexivity.
  - assert (p = q) by (destruct p, q; simpl in Hx; congruence). subst p.
    rewrite HR, Hsh, IH by lia. rewrite <- app_assoc. reflexivity.
Qed.

Lemma apply_diff_commands (a b : list (list bool)) (P Q : CytecConnections) :
  same_shape a b ->
  apply_cell_commands (P ++ lift a ++ Q) (concat (diff_commands_b (length P) a b))
  = inr (P ++ lift b ++ Q).
Proof.
  intros Hs. revert P. induction Hs as [|xs ys a b Hl Hs IH]; intros P; [reflexivity|].
  simpl. rewrite apply_commands_app.
  pose proof (apply_row_commands xs ys P (lift a ++ Q) [] [] Hl) as Hr.
  simpl in Hr. rewrite !app_nil_r in Hr. rewrite Hr. simpl.
  replace (S (length P)) with (length (P ++ [map Some ys])) by (rewrite length_app; simpl; lia).
  replace (P ++ map Some ys :: lift a ++ Q) with ((P ++ [map Some ys]) ++ lift a ++ Q)
    by (rewrite <- app_assoc; reflexivity).
  rewrite IH. rewrite <- app_assoc. reflexivity.
Qed.

(** On a matrix whose rows are distinct objects, [set_connection] changes
    the value as [set_cell] does, and fails as it does. *)
Lemma set_connection_unshared (A : Matrix) (v : CytecConnections) (m o : nat) (x : bool) :
  NoDup (row_refs A) -> contents A = Some v ->
  match set_cell v m o x with
  | inl e => set_connection A m o x = inl e
  | inr v' => exists A', set_connection A m o x = inr A'
                /\ row_refs A' = row_refs A /\ contents A' = Some v'
  end.
Proof.
  destruct A as [objs refs]. unfold contents, set_connection, set_cell, deepcopy.
  cbn [row_objects row_refs]. intros Hnd Hc. apply mapM_Some in Hc.
  destruct (v !! m) as [row|] eqn:Hvm.
  - destruct (Forall2_lookup_r _ _ _ _ _ Hc Hvm) as (p & Hp & Hrow).
    rewrite Hp, Hrow.
    destruct (row !! o) as [y|] eqn:Ho; [|reflexivity].
    eexists. split; [reflexivity|]. split; [reflexivity|]. cbn [row_objects row_refs].
    apply mapM_Some, Forall2_lookup. intros i.
    destruct (decide (i = m)) as [->|Him].
    + rewrite Hp, list_lookup_insert_eq by (eapply lookup_lt_Some; exact Hvm).
      constructor. apply list_lookup_insert_eq. eapply lookup_lt_Some; exact Hrow.
    + rewrite (list_lookup_insert_ne v) by congruence.
      rewrite Forall2_lookup in Hc. specialize (Hc i).
      destruct (refs !! i) as [q|] eqn:Hq, (v !! i) as [r|];
        inversion Hc as [? ? Hqr|]; subst; constructor.
      rewrite list_lookup_insert_ne; [exact Hqr|].
      intros ->. apply Him. eapply NoDup_lookup; eauto.
  - assert (Hn : refs !! m = None).
    { apply lookup_ge_None_2. apply lookup_ge_None_1 in Hvm.
      rewrite (Forall2_length _ _ _ Hc). exact Hvm. }
    rewrite Hn. reflexivity.
Qed.

Lemma apply_commands_unshared (A : Matrix) (v v' : CytecConnections) (cs : list command) :
  NoDup (row_refs A) -> contents A = Some v -> apply_cell_commands v cs = inr v' ->
  exists A', apply_commands A cs = inr A' /\ row_refs A' = row_refs A /\ contents A' = Some v'.
Proof.
  revert A v. induction cs as [|[[o i] j] cs IH]; intros A v Hnd Hc H.
  - injection H as <-. exists A. auto.
  - cbn [apply_cell_commands] in H.
    assert (Hstep : forall x, apply_cell_command v (o, i, j) = set_cell v i j x ->
                    apply_command A (o, i, j) = set_connection A i j x ->
                    exists A', apply_commands A ((o, i, j) :: cs) = inr A'
                               /\ row_refs A' = row_refs A /\ contents A' = Some v').
    { intros x Hv HA. rewrite Hv in H.
      pose proof (set_connection_unshared A v i j x Hnd Hc) as Hs.
      destruct (set_cell v i j x) as [e|v1]; cbn [rbind] in H; [discriminate|].
      destruct Hs as (A1 & HA1 & Hr1 & Hc1).
      cbn [apply_commands]. rewrite HA, HA1. cbn [rbind].
      destruct (IH A1 v1) as (A' & H' & Hr' & Hc'); [rewrite Hr1; exact Hnd|exact Hc1|exact H|].
      exists A'. split; [exact H'|]. split; [congruence|exact Hc']. }
    destruct o; [apply (Hstep true)|apply (Hstep false)]; reflexivity.
Qed.

Lemma row_commands_b_same (i j : nat) (xs : list bool) : row_commands_b i j xs xs = [].
Proof.
  revert j. induction xs as [|x xs IH]; intros j; [reflexivity|].
  simpl. rewrite IH. destruct x; reflexivity.
Qed.

Lemma grouped_commands_same (i : nat) (a : list (list bool)) :
  grouped_commands (diff_commands_b i a a) = [].
Proof.
  unfold grouped_commands. revert i. induction a as [|xs a IH]; intros i; [reflexivity|].
  simpl. rewrite row_commands_b_same. apply (IH (S i)).
Qed.

Lemma packs_snd (toks : list string) (f : list (string * nat)) (x : string * nat) :
  f ∈ packs toks -> x ∈ f -> snd x = String.length (fst x) + 1.
Proof.
  intros Hf Hx.
  assert (Hin : x ∈ concat (packs toks)).
  { apply list_elem_of_In, in_concat. exists f. split; apply list_elem_of_In; assumption. }
  unfold packs in Hin. rewrite splitsum_concat in Hin.
  apply list_elem_of_In, in_map_iff in Hin as (t & <- & _). reflexivity.
Qed.

Lemma frame_sum_tokens (f : list (string * nat)) :
  Forall (fun x => snd x = String.length (fst x) + 1) f ->
  sum_list_with snd f = sum_list_with (fun t => String.length t + 1) (map fst f).
Proof.
  induction 1 as [|x f Hx _ IH]; [reflexivity|]. simpl. rewrite Hx, IH. reflexivity.
Qed.

Lemma run_tokens_false (cs : list command) : run_tokens false cs = map (token false) cs.
Proof. induction cs as [|c cs IH]; [reflexivity|]. simpl. rewrite IH. reflexivity. Qed.

Lemma packs_tokens (toks : list string) : concat (map (map fst) (packs toks)) = toks.
Proof.
  rewrite <- concat_map. unfold packs. rewrite splitsum_concat, map_map.
  apply map_id.
Qed.

Lemma row_commands_module (i j : nat) (xs ys : list cell) (r : list command) :
  row_commands i j xs ys = inr r -> Forall (fun c => c.1.2 = i) r.
Proof.
  revert j ys r. induction xs as [|p xs IH]; intros j [|q ys] r H; simpl in H;
    try (injection H as <-; constructor).
  destruct (cell_xor p q) as [e|d]; cbn [rbind] in H; [discriminate|].
  destruct (row_commands i (S j) xs ys) as [e|rest] eqn:Hr; cbn [rbind] in H; [discriminate|].
  injection H as <-. apply IH in Hr. destruct d; [constructor; [reflexivity|]|]; exact Hr.
Qed.

Lemma diff_commands_module (i : nat) (cur new : CytecConnections) (cmds : list (list command)) :
  diff_commands i cur new = inr cmds ->
  forall k row, cmds !! k = Some row -> Forall (fun c => c.1.2 = i + k) row.
Proof.
  revert i new cmds. induction cur as [|xs cur IH]; intros i [|ys new] cmds H; simpl in H;
    try (injection H as <-; intros k row Hk; rewrite lookup_nil in Hk; discriminate).
  destruct (row_commands i 0 xs ys) as [e|r] eqn:Hr; cbn [rbind] in H; [discriminate|].
  destruct (diff_commands (S i) cur new) as [e|rest] eqn:Hd; cbn [rbind] in H; [discriminate|].
  injection H as <-. intros [|k] row Hk; simpl in Hk.
  - injection Hk as <-. rewrite Nat.add_0_r. exact (row_commands_module _ _ _ _ _ Hr).
  - replace (i + S k) with (S i + k) by lia. exact (IH _ _ _ Hd k row Hk).
Qed.

Lemma row_commands_error (i j : nat) (xs ys : list cell) (e : error) :
  row_commands i j xs ys = inl e -> e = TypeError.
Proof.
  revert j ys. induction xs as [|p xs IH]; intros j [|q ys] H; simpl in H; try discriminate.
  destruct (cell_xor p q) as [e'|d] eqn:Hx; simpl in H.
  - injection H as <-. destruct p as [[]|], q as [[]|]; simpl in Hx; congruence.
  - destruct (row_commands i (S j) xs ys) eqn:Hr; simpl in H; [|discriminate].
    injection H as <-. eapply IH. exact Hr.
Qed.

Lemma diff_commands_error (i : nat) (cur new : CytecConnections) (e : error) :
  diff_commands i cur new = inl e -> e = TypeError.
Proof.
  revert i new. induction cur as [|xs cur IH]; intros i [|ys new] H; simpl in H; try discriminate.
  destruct (row_commands i 0 xs ys) eqn:Hr; simpl in H.
  - injection H as <-. eapply row_commands_error. exact Hr.
  - destruct (diff_commands (S i) cur new) eqn:Hd; simpl in H; [|discriminate].
    injection H as <-. eapply IH. exact Hd.
Qed.

Lemma connections_error (c : Cytec) (e : error) :
  connections c = inl e -> e = VisaIOError.
Proof.
  unfold connections, read_bytes. case_decide; simpl; [discriminate|]. congruence.
Qed.

(** Concrete inputs. *)

(** A status reply [b"10\r01\r"]. *)
Definition status_10_01 : string :=
  String "1" (String "0" (String CR (String "0" (String "1" (String CR EmptyString))))).

(** A token of 60 characters: with its separator it needs 61 bytes. *)
Fixpoint zeros (n : nat) : string :=
  match n with O => EmptyString | S n' => String "0" (zeros n') end.

Definition token60 : string := zeros 60.

(** Two modules of sixteen outputs; module 0 switches outputs 10..15 and
    module 1 switches all sixteen. *)
Definition run_split_current : CytecConnections :=
  lift [repeat false 16; repeat false 16].

Definition run_split_target : CytecConnections :=
  lift [repeat false 10 ++ repeat true 6; repeat true 16].

(** One module, one output, the instrument answering ["0\r"] to both status
    reads. *)
Definition one_relay_session : Cytec :=
  mkCytec (mkResource [] (String "0" (String CR (String "0" (String CR EmptyString)))))
          (mkCytecState 1 1 false false false [[Some false]]).

(** ** The claims *)

(** C1 (as stated, refuted): with [verify_after], a re-read status that
    differs from the requested target is returned as the result; no
    [CytecSwitchingError] is raised. *)
Lemma C1_mismatch_returned :
  exists c', set_connections one_relay_session [[Some true]] true true = inr c'
             /\ connections_of (state c') = [[Some false]]
             /\ connections_of (state c') <> [[Some true]].
Proof. eexists. split; [vm_compute; reflexivity|]. split; [reflexivity|discriminate]. Qed.

(** C1 (amended): with [verify_after], [set_connections] never raises
    [CytecSwitchingError]; what it returns is the status read on the
    session left after writing every packed frame (the session first
    refreshed by a status read when [update_connections_first]), returned
    as is, without any comparison with the target. *)
Theorem C1_verify_returns_status_read (c : Cytec) (new : CytecConnections) (first : bool) :
  set_connections c new first true <> inl CytecSwitchingError
  /\ (forall c', set_connections c new first true = inr c' ->
       exists c0 cmds,
         (if first then connections c = inr c0 else c0 = c)
         /\ commands (connections_of (state c0)) new = inr cmds
         /\ connections (mkCytec (write_all (resource (silenced c0 false))
                                            (packed_commands (grouped_commands cmds)))
                                 (state (silenced c0 false))) = inr c').
Proof.
  assert (Hgo : forall c0, set_connections_go c0 new true <> inl CytecSwitchingError
                /\ (forall c', set_connections_go c0 new true = inr c' ->
                     exists cmds, commands (connections_of (state c0)) new = inr cmds
                       /\ connections (mkCytec (write_all (resource (silenced c0 false))
                                                          (packed_commands (grouped_commands cmds)))
                                               (state (silenced c0 false))) = inr c')).
  { intros c0. unfold set_connections_go.
    destruct (commands (connections_of (state c0)) new) as [e|cmds] eqn:Hc; cbn [rbind].
    - split; [|discriminate]. intros [= ->].
      apply diff_commands_error in Hc. discriminate.
    - split; [|intros c' H; exists cmds; split; [reflexivity|exact H]].
      destruct (connections _) eqn:Hn; [|discriminate].
      apply connections_error in Hn. congruence. }
  unfold set_connections. destruct first.
  - destruct (connections c) as [e|c1] eqn:Hc; cbn [rbind].
    + split; [|discriminate]. apply connections_error in Hc. congruence.
    + destruct (Hgo c1) as [H1 H2]. split; [exact H1|].
      intros c' H. destruct (H2 c' H) as (cmds & Hd & Hr). exists c1, cmds. auto.
  - destruct (Hgo c) as [H1 H2]. split; [exact H1|].
    intros c' H. destruct (H2 c' H) as (cmds & Hd & Hr). exists c, cmds. auto.
Qed.

Lemma C1_verify_returns_status_read_witness :
  exists c', set_connections one_relay_session [[Some true]] true true = inr c'
    /\ exists c0 cmds,
         connections one_relay_session = inr c0
         /\ commands (connections_of (state c0)) [[Some true]] = inr cmds
         /\ connections (mkCytec (write_all (resource (silenced c0 false))
                                            (packed_commands (grouped_commands cmds)))
                                 (state (silenced c0 false))) = inr c'.
Proof.
  eexists. split; [vm_compute; reflexivity|].
  apply (C1_verify_returns_status_read one_relay_session [[Some true]] true).
  vm_compute. reflexivity.
Defined.

(** C2 (as stated, refuted): [splitsum] cuts frames by length alone, so a
    frame can start inside a module's run.  Here the second frame opens
    with the continuation token ["L10"] (module 1, output 10), whose module
    was introduced by ["L1 0"] in the first frame. *)
Theorem C2_run_split_across_frames :
  exists cmds,
    commands run_split_current run_split_target = inr cmds
    /\ packed_commands (grouped_commands cmds) =
       ["L0 10;L11;L12;L13;L14;L15;L1 0;L1;L2;L3;L4;L5;L6;L7;L8;L9";
        "L10;L11;L12;L13;L14;L15"]%string.
Proof. eexists. split; [reflexivity|]. vm_compute. reflexivity. Qed.

(** C2 (amended): the frames, read in order, give the runs module by
    module: the run of module [k] is the token ["{op}{k} {output}"] of its
    first operation followed by the tokens ["{op}{output}"] of its other
    operations, all on module [k].  So a continuation token always comes
    after the token that introduced its module, with only tokens of that
    module in between, though possibly in a later frame. *)
Theorem C2_runs_in_frame_order (cur new : CytecConnections) (cmds : list (list command)) :
  commands cur new = inr cmds ->
  concat (map (map fst) (packs (grouped_commands cmds)))
  = concat (map (fun run => match run with
                            | [] => []
                            | c :: cs => token true c :: map (token false) cs
                            end) cmds)
  /\ forall k run, cmds !! k = Some run -> Forall (fun c => c.1.2 = k) run.
Proof.
  intros H. split.
  - rewrite packs_tokens. unfold grouped_commands. f_equal. apply map_ext.
    intros [|c cs]; [reflexivity|]. simpl. rewrite run_tokens_false. reflexivity.
  - exact (diff_commands_module 0 cur new cmds H).
Qed.

Lemma C2_runs_in_frame_order_witness :
  exists cmds,
    commands run_split_current run_split_target = inr cmds
    /\ concat (map (map fst) (packs (grouped_commands cmds)))
       = concat (map (fun run => match run with
                                 | [] => []
                                 | c :: cs => token true c :: map (token false) cs
                                 end) cmds)
    /\ forall k run, cmds !! k = Some run -> Forall (fun c => c.1.2 = k) run.
Proof.
  eexists. split; [reflexivity|].
  apply (C2_runs_in_frame_order run_split_current run_split_target). reflexivity.
Defined.

(** C3 (as stated, refuted): a status byte other than ['0'] and ['1'] is
    decoded as an unknown cell, and the read succeeds. *)
Lemma C3_unknown_byte_decoded :
  connections (mkCytec (mkResource [] (String "x" (String CR EmptyString)))
                       (mkCytecState 1 1 false false false []))
  = inr (mkCytec (mkResource ["S"] EmptyString)
                 (mkCytecState 1 1 false false false [[None]])).
Proof. vm_compute. reflexivity. Qed.

(** C3 (amended): ['0'] decodes to disconnected, ['1'] to connected and
    every other byte to unknown; a status read never fails on the content
    of the bytes: it succeeds exactly when the instrument has the
    [(modules + 1) * outputs] bytes requested. *)
Theorem C3_decoder_total (c : Cytec) :
  relay_state "0"%char = Some false
  /\ relay_state "1"%char = Some true
  /\ (forall b, relay_state b = None <-> b <> "0"%char /\ b <> "1"%char)
  /\ ((exists c', connections c = inr c')
      <-> (modules (state c) + 1) * outputs (state c) <= String.length (pending (resource c))).
Proof.
  split; [reflexivity|]. split; [reflexivity|]. split.
  - intros b. unfold relay_state. repeat case_decide; split; intros; naive_solver.
  - destruct c as [[w p] [m o ab ec vb cn]].
    unfold connections, silenced, read_bytes, write. simpl.
    destruct (ab || ec || vb); simpl; case_decide; simpl.
    all: split; [intros [c' Hc']; try discriminate; assumption
                |intros; try contradiction; eexists; reflexivity].
Qed.

(** C4 (as stated, refuted): a token longer than the limit does not make
    the packer fail; it is packed into a frame of its own, after an empty
    first frame. *)
Lemma C4_long_token_packed :
  MAX_COMMAND_LENGTH < String.length token60 + 1
  /\ packs [token60] = [[]; [(token60, 61)]].
Proof. split; vm_compute; [lia|reflexivity]. Qed.

(** C4 (amended): the packer never fails; a token whose length plus one
    exceeds [MAX_COMMAND_LENGTH] is emitted alone in a frame of its own. *)
Theorem C4_long_token_alone (pre post : list string) (t : string) :
  MAX_COMMAND_LENGTH < String.length t + 1 ->
  [(t, String.length t + 1)] ∈ packs (pre ++ t :: post).
Proof.
  intros Ht. unfold packs. rewrite map_app. simpl.
  apply splitsum_heavy_singleton. exact Ht.
Qed.

Lemma C4_long_token_alone_witness :
  MAX_COMMAND_LENGTH < String.length token60 + 1
  /\ [(token60, String.length token60 + 1)] ∈ packs (["L0 0"%string] ++ token60 :: ["L1"%string]).
Proof.
  assert (H : MAX_COMMAND_LENGTH < String.length token60 + 1) by (vm_compute; lia).
  split; [exact H|]. apply C4_long_token_alone. exact H.
Defined.

(** C5 (as stated, refuted): the frame holding a 60-character token needs
    61 bytes. *)
Lemma C5_frame_over_limit :
  ~ Forall (fun f => sum_list_with (fun t => String.length t + 1) (map fst f) <= MAX_COMMAND_LENGTH)
           (packs [token60]).
Proof.
  vm_compute. intros H. inversion H as [|? ? _ H2]. inversion H2 as [|? ? H3 _]. lia.
Qed.

(** C5 (amended): every frame fits in [MAX_COMMAND_LENGTH] bytes, counting
    one separator per token, unless it is a single token that alone does
    not fit. *)
Theorem C5_frames_fit (toks : list string) :
  Forall (fun f =>
    sum_list_with (fun t => String.length t + 1) (map fst f) <= MAX_COMMAND_LENGTH
    \/ exists t, map fst f = [t] /\ MAX_COMMAND_LENGTH < String.length t + 1)
    (packs toks).
Proof.
  pose proof (splitsum_frames_ok MAX_COMMAND_LENGTH snd
                (map (fun t => (t, String.length t + 1)) toks)) as Hok.
  apply Forall_forall. intros f Hf.
  assert (Hs : Forall (fun x => snd x = String.length (fst x) + 1) f).
  { apply Forall_forall. intros x Hx. eapply packs_snd; eassumption. }
  eapply Forall_forall in Hok; [|exact Hf].
  destruct Hok as [Hle|(x & -> & Hx)].
  - left. rewrite <- frame_sum_tokens by exact Hs. exact Hle.
  - right. exists (fst x). split; [reflexivity|].
    inversion Hs as [|? ? Hx' _]. rewrite <- Hx'. exact Hx.
Qed.

(** C6: the frames, read in order, give back the token list. *)
Theorem C6_packs_concat (toks : list string) :
  concat (map (map fst) (packs toks)) = toks.
Proof.
  rewrite <- concat_map. unfold packs. rewrite splitsum_concat, map_map.
  apply map_id.
Qed.

(** C7: on two fully known matrices of the same shape, the diff has one
    command per differing cell, [L] when the target cell is connected and
    [U] otherwise, module-major then output-major, and nothing for equal
    cells. *)
Theorem C7_diff_row_major (a b : list (list bool)) :
  same_shape a b ->
  exists cmds, commands (lift a) (lift b) = inr cmds /\ concat cmds = diff_spec a b.
Proof.
  intros Hs. exists (diff_commands_b 0 a b). split.
  - apply diff_commands_lift.
  - rewrite (diff_commands_b_spec 0 a b Hs). reflexivity.
Qed.

Lemma C7_diff_row_major_witness :
  same_shape [[false; false]; [false; false]] [[true; false]; [false; true]]
  /\ exists cmds,
       commands (lift [[false; false]; [false; false]]) (lift [[true; false]; [false; true]]) = inr cmds
       /\ concat cmds = diff_spec [[false; false]; [false; false]] [[true; false]; [false; true]].
Proof.
  assert (Hs : same_shape [[false; false]; [false; false]] [[true; false]; [false; true]])
    by (repeat constructor).
  split; [exact Hs|]. apply C7_diff_row_major. exact Hs.
Defined.

(** C8 (as stated, refuted): when two rows of the current matrix are one
    list object, [deepcopy] keeps them shared and latching a cell of one
    latches it in the other, so applying the diff does not give the
    target. *)
Lemma C8_aliased_rows :
  contents (mkMatrix [[Some false; Some false]] [0; 0]) = Some (lift [[false; false]; [false; false]])
  /\ commands (lift [[false; false]; [false; false]]) (lift [[true; false]; [false; false]])
     = inr [[(L, 0, 0)]; []]
  /\ apply_commands (mkMatrix [[Some false; Some false]] [0; 0]) (concat [[(L, 0, 0)]; []])
     = inr (mkMatrix [[Some true; Some false]] [0; 0])
  /\ contents (mkMatrix [[Some true; Some false]] [0; 0]) = Some (lift [[true; false]; [true; false]])
  /\ lift [[true; false]; [true; false]] <> lift [[true; false]; [false; false]].
Proof. split; [reflexivity|]. split; [reflexivity|]. split; [reflexivity|]. split; [reflexivity|discriminate]. Qed.

(** C8 (amended): when the rows of the current matrix are distinct
    objects, applying the diff's commands in order with [latch] and
    [unlatch] gives a matrix whose value is the target. *)
Theorem C8_diff_then_apply (A : Matrix) (a b : list (list bool)) :
  NoDup (row_refs A) -> contents A = Some (lift a) -> same_shape a b ->
  exists cmds, commands (lift a) (lift b) = inr cmds
               /\ exists A', apply_commands A (concat cmds) = inr A' /\ contents A' = Some (lift b).
Proof.
  intros Hnd Hc Hs. exists (diff_commands_b 0 a b). split.
  - apply diff_commands_lift.
  - pose proof (apply_diff_commands a b [] [] Hs) as H.
    simpl in H. rewrite !app_nil_r in H.
    destruct (apply_commands_unshared A _ _ _ Hnd Hc H) as (A' & HA' & _ & Hc').
    exists A'. split; assumption.
Qed.

Lemma C8_diff_then_apply_witness :
  NoDup (row_refs (fresh_rows (lift [[false; true]; [true; false]])))
  /\ contents (fresh_rows (lift [[false; true]; [true; false]])) = Some (lift [[false; true]; [true; false]])
  /\ same_shape [[false; true]; [true; false]] [[true; true]; [false; false]]
  /\ exists cmds,
       commands (lift [[false; true]; [true; false]]) (lift [[true; true]; [false; false]]) = inr cmds
       /\ exists A', apply_commands (fresh_rows (lift [[false; true]; [true; false]])) (concat cmds) = inr A'
                     /\ contents A' = Some (lift [[true; true]; [false; false]]).
Proof.
  assert (Hnd : NoDup (row_refs (fresh_rows (lift [[false; true]; [true; false]]))))
    by (unfold fresh_rows; cbn [row_refs]; apply NoDup_seq).
  assert (Hc : contents (fresh_rows (lift [[false; true]; [true; false]]))
               = Some (lift [[false; true]; [true; false]])) by reflexivity.
  assert (Hs : same_shape [[false; true]; [true; false]] [[true; true]; [false; false]])
    by (repeat constructor).
  split; [exact Hnd|]. split; [exact Hc|]. split; [exact Hs|].
  exact (C8_diff_then_apply _ _ _ Hnd Hc Hs).
Defined.

(** C9: with two modules and two outputs, [b"10\r01\r"] splits into
    ["10"], ["01"] and a final empty piece, which is dropped; the rows per
    output are [[True, False]] and [[False, True]], and the transposed
    matrix is [[[True, False], [False, True]]]. *)
Theorem C9_status_scenario (w : list string) (ab ec vb : bool) (cn : CytecConnections) :
  split_cr status_10_01 = ["10"; "01"; ""]%string
  /\ status_rows status_10_01 = [[Some true; Some false]; [Some false; Some true]]
  /\ exists c',
       connections (mkCytec (mkResource w status_10_01) (mkCytecState 2 2 ab ec vb cn)) = inr c'
       /\ connections_of (state c') = [[Some true; Some false]; [Some false; Some true]].
Proof.
  split; [reflexivity|]. split; [reflexivity|].
  unfold connections, silenced. cbn [resource state answerback echo verbose].
  destruct ab, ec, vb; eexists; split; reflexivity.
Qed.

(** C10: with nothing to switch, the packer returns one empty frame,
    joined into the empty command, and [set_connections] writes that one
    empty command. *)
Theorem C10_empty_diff_one_empty_frame (a : list (list bool)) (c : Cytec) (verify : bool) :
  connections_of (state c) = lift a ->
  packs [] = [[]]
  /\ packed_commands [] = [""%string]
  /\ set_connections_go c (lift a) verify =
     (let cpre := silenced c false in
      let r := write (resource cpre) "" in
      if verify then connections (mkCytec r (state cpre))
      else inr (mkCytec r (with_connections (state c) (lift a)))).
Proof.
  intros Hc. split; [reflexivity|]. split; [reflexivity|].
  unfold set_connections_go. rewrite Hc. unfold commands.
  rewrite diff_commands_lift. simpl. rewrite grouped_commands_same. reflexivity.
Qed.

Lemma C10_empty_diff_one_empty_frame_witness :
  connections_of (state one_relay_session) = lift [[false]]
  /\ packs [] = [[]]
  /\ packed_commands [] = [""%string]
  /\ set_connections_go one_relay_session (lift [[false]]) false =
     inr (mkCytec (write (resource (silenced one_relay_session false)) "")
                  (with_connections (state one_relay_session) (lift [[false]]))).
Proof.
  assert (H : connections_of (state one_relay_session) = lift [[false]]) by reflexivity.
  split; [exact H|]. apply (C10_empty_diff_one_empty_frame [[false]] one_relay_session false). exact H.
Defined.

(** ** Further properties of the driver *)

(** *** [transpose] *)

Section Transpose.
Context {A : Type} `{!Inhabited A}.

Definition rectangular (k : nat) (rows : list (list A)) : Prop :=
  Forall (fun r => length r = k) rows.

Lemma heads_nonempty (rows : list (list A)) :
  Forall (fun r => r <> []) rows ->
  heads rows = Some (map (fun r => nth 0 r inhabitant) rows, map tail rows).
Proof.
  intros Hne. unfold heads.
  assert (H : mapM (fun r => match r with [] => None | x :: r' => Some (x, r') end) rows
              = Some (map (fun r => (nth 0 r inhabitant, tail r)) rows)).
  { induction Hne as [|r rows Hr _ IH]; [reflexivity|].
    destruct r as [|x r]; [congruence|]. simpl. rewrite IH. reflexivity. }
  rewrite H. simpl. rewrite !map_map. reflexivity.
Qed.

Lemma heads_empty_row (rows : list (list A)) :
  [] ∈ rows -> heads rows = None.
Proof.
  intros Hin. unfold heads.
  assert (H : mapM (fun r => match r with [] => None | x :: r' => Some (x, r') end) rows = None).
  { induction rows as [|r rows IH]; [inversion Hin|].
    apply elem_of_cons in Hin as [<-|Hin]; [reflexivity|].
    simpl. rewrite IH by exact Hin. destruct r; reflexivity. }
  rewrite H. reflexivity.
Qed.

Lemma transpose_go_columns (fuel m : nat) (rows : list (list A)) :
  m <= fuel -> (exists r, r ∈ rows /\ length r = m) ->
  Forall (fun r => m <= length r) rows ->
  transpose_go fuel rows = map (fun j => map (fun r => nth j r inhabitant) rows) (seq 0 m).
Proof.
  revert m rows. induction fuel as [|fuel IH]; intros m rows Hm Hex Hk.
  { assert (m = 0) as -> by lia. reflexivity. }
  destruct m as [|m].
  { destruct Hex as (r & Hr & Hl). destruct r; [|discriminate].
    simpl. rewrite heads_empty_row by exact Hr. reflexivity. }
  simpl. rewrite heads_nonempty.
  2:{ eapply Forall_impl; [exact Hk|]. intros [|x r] Hr; simpl in Hr; [lia|discriminate]. }
  rewrite (IH m).
  - f_equal. rewrite <- seq_shift, !map_map. apply map_ext. intros j.
    rewrite map_map. apply map_ext. intros [|x r]; [destruct j|]; reflexivity.
  - lia.
  - destruct Hex as (r & Hr & Hl). exists (tail r). split.
    + apply (list_elem_of_fmap_2 tail). exact Hr.
    + destruct r; simpl in *; lia.
  - apply Forall_map. eapply Forall_impl; [exact Hk|]. intros [|x r] Hr; simpl in *; lia.
Qed.

(** [zip( *rows)] stops at the shortest row. *)
Lemma transpose_shortest (m : nat) (rows : list (list A)) :
  (exists r, r ∈ rows /\ length r = m) -> Forall (fun r => m <= length r) rows ->
  transpose rows = map (fun j => map (fun r => nth j r inhabitant) rows) (seq 0 m).
Proof.
  intros Hex Hk. destruct rows as [|r0 rows'].
  { destruct Hex as (r & Hr & _). inversion Hr. }
  unfold transpose. apply transpose_go_columns; [|exact Hex|exact Hk].
  inversion Hk. assumption.
Qed.

Lemma transpose_rect (k : nat) (rows : list (list A)) :
  rows <> [] -> rectangular k rows ->
  transpose rows = map (fun j => map (fun r => nth j r inhabitant) rows) (seq 0 k).
Proof.
  intros Hne Hr. destruct rows as [|r rows']; [congruence|].
  apply transpose_shortest.
  - exists r. split; [left|]. inversion Hr. assumption.
  - eapply Forall_impl; [exact Hr|]. simpl. lia.
Qed.

Lemma map_nth_seq_self (r : list A) :
  map (fun j => nth j r inhabitant) (seq 0 (length r)) = r.
Proof.
  apply list_eq. intros j. rewrite list_lookup_fmap.
  destruct (decide (j < length r)).
  - rewrite lookup_seq_lt by lia. simpl. rewrite nth_lookup.
    destruct (lookup_lt_is_Some_2 r j) as [x Hx]; [lia|]. rewrite Hx. reflexivity.
  - rewrite lookup_seq_ge by lia. rewrite lookup_ge_None_2 by lia. reflexivity.
Qed.
Lemma transpose_transpose_rect (k : nat) (rows : list (list A)) :
  rows <> [] -> 0 < k -> rectangular k rows -> transpose (transpose rows) = rows.
Proof.
  intros Hne Hk Hr.
  set (n := length rows).
  rewrite (transpose_rect k rows Hne Hr).
  rewrite (transpose_rect n).
  2:{ destruct k; [lia|]. discriminate. }
  2:{ apply Forall_forall. intros c Hc. apply list_elem_of_In, in_map_iff in Hc as (j & <- & _).
      rewrite length_map. reflexivity. }
  apply list_eq. intros i. rewrite list_lookup_fmap.
  destruct (decide (i < n)).
  - rewrite lookup_seq_lt by lia. simpl.
    destruct (lookup_lt_is_Some_2 rows i) as [r Hri]; [exact l|]. rewrite Hri. f_equal.
    assert (Hlen : length r = k) by exact (Forall_lookup_1 (fun r0 => length r0 = k) rows i r Hr Hri).
    rewrite map_map.
    transitivity (map (fun j => nth j r inhabitant) (seq 0 k));
      [|rewrite <- Hlen; apply map_nth_seq_self].
    apply map_ext. intros j.
    rewrite (nth_lookup_Some (map (fun r0 => nth j r0 inhabitant) rows) i inhabitant
               (nth j r inhabitant)); [reflexivity|].
    rewrite list_lookup_fmap, Hri. reflexivity.
  - rewrite lookup_seq_ge by lia. rewrite lookup_ge_None_2 by lia. reflexivity.
Qed.

Lemma heads_cons (r : list A) (rows : list (list A)) :
  heads (r :: rows) =
  match r with
  | [] => None
  | x :: r' => match heads rows with None => None | Some (h, t) => Some (x :: h, r' :: t) end
  end.
Proof.
  unfold heads. simpl. destruct r as [|x r']; [reflexivity|]. simpl.
  destruct (mapM _ rows); reflexivity.
Qed.
End Transpose.

(** X1: [transpose] keeps as many columns as the shortest row has, and
    column [j] of the result lists entry [j] of every row in order. *)
Theorem X1_transpose_truncates {A} `{!Inhabited A} (m : nat) (rows : list (list A)) :
  (exists r, r ∈ rows /\ length r = m) -> Forall (fun r => m <= length r) rows ->
  transpose rows = map (fun j => map (fun r => nth j r inhabitant) rows) (seq 0 m).
Proof. apply transpose_shortest. Qed.

Lemma X1_transpose_truncates_witness :
  ((exists r, r ∈ [[1; 2; 3]; [4; 5]] /\ length r = 2)
   /\ Forall (fun r => 2 <= length r) [[1; 2; 3]; [4; 5]])
  /\ transpose [[1; 2; 3]; [4; 5]]
     = map (fun j => map (fun r => nth j r inhabitant) [[1; 2; 3]; [4; 5]]) (seq 0 2).
Proof.
  assert (Hex : exists r, r ∈ [[1; 2; 3]; [4; 5]] /\ length r = 2)
    by (exists [4; 5]; split; [right; left|reflexivity]).
  assert (Hk : Forall (fun r => 2 <= length r) [[1; 2; 3]; [4; 5]])
    by (repeat constructor; simpl; lia).
  split; [split; assumption|]. apply (X1_transpose_truncates 2); assumption.
Defined.

(** X2: on a non-empty rectangular matrix with at least one column,
    transposing twice gives the matrix back. *)
Theorem X2_transpose_involutive {A} `{!Inhabited A} (k : nat) (rows : list (list A)) :
  rows <> [] -> 0 < k -> rectangular k rows -> transpose (transpose rows) = rows.
Proof. apply transpose_transpose_rect. Qed.

Lemma X2_transpose_involutive_witness :
  ([[1; 2; 3]; [4; 5; 6]] <> [] /\ 0 < 3 /\ rectangular 3 [[1; 2; 3]; [4; 5; 6]])
  /\ transpose (transpose [[1; 2; 3]; [4; 5; 6]]) = [[1; 2; 3]; [4; 5; 6]].
Proof.
  assert (H1 : [[1; 2; 3]; [4; 5; 6]] <> []) by discriminate.
  assert (H2 : 0 < 3) by lia.
  assert (H3 : rectangular 3 [[1; 2; 3]; [4; 5; 6]]) by (repeat constructor).
  split; [auto|]. apply (X2_transpose_involutive 3); assumption.
Defined.

Lemma heads_map {A B} (f : A -> B) (rows : list (list A)) :
  heads (map (map f) rows) =
  match heads rows with None => None | Some (h, t) => Some (map f h, map (map f) t) end.
Proof.
  induction rows as [|r rows IH]; [reflexivity|].
  simpl map. rewrite !heads_cons. destruct r as [|x r']; [reflexivity|].
  simpl. rewrite IH. destruct (heads rows) as [[h t]|]; reflexivity.
Qed.

Lemma transpose_map {A B} (f : A -> B) (rows : list (list A)) :
  transpose (map (map f) rows) = map (map f) (transpose rows).
Proof.
  destruct rows as [|r rows]; [reflexivity|]. unfold transpose.
  cbn [map]. rewrite length_map.
  change (map f r :: map (map f) rows) with (map (map f) (r :: rows)).
  generalize (length r) as fuel.
  generalize (r :: rows) as rs. intros rs fuel. revert rs.
  induction fuel as [|fuel IH]; intros rs; [reflexivity|].
  simpl. rewrite heads_map. destruct (heads rs) as [[h t]|]; [|reflexivity].
  simpl. rewrite IH. reflexivity.
Qed.

(** *** Status replies *)

Lemma string_length_app (s t : string) :
  String.length (s ++ t) = String.length s + String.length t.
Proof. induction s as [|c s IH]; simpl; [reflexivity|]. rewrite IH. reflexivity. Qed.

Lemma substring_app_prefix (s t : string) : substring 0 (String.length s) (s ++ t) = s.
Proof. induction s as [|c s IH]; simpl; [destruct t; reflexivity|]. rewrite IH. reflexivity. Qed.

Lemma substring_all (t : string) : substring 0 (String.length t) t = t.
Proof. induction t as [|c t IH]; simpl; [reflexivity|]. rewrite IH. reflexivity. Qed.

Lemma substring_app_suffix (s t : string) :
  substring (String.length s) (String.length (s ++ t) - String.length s) (s ++ t) = t.
Proof.
  rewrite string_length_app. replace (String.length s + String.length t - String.length s)
    with (String.length t) by lia.
  induction s as [|c s IH]; simpl; [apply substring_all|exact IH].
Qed.

Lemma string_length_of_list (xs : list ascii) : String.length (string_of_list_ascii xs) = length xs.
Proof. induction xs as [|x xs IH]; simpl; [reflexivity|]. rewrite IH. reflexivity. Qed.

Lemma reply_of_lines_length (n : nat) (lines : list string) :
  Forall (fun l => String.length l = n) lines ->
  String.length (reply_of_lines lines) = length lines * (n + 1).
Proof.
  induction 1 as [|l lines Hl _ IH]; [reflexivity|]. simpl.
  rewrite string_length_app, Hl. simpl. rewrite IH. lia.
Qed.

Lemma split_cr_line (l rest : string) :
  CR ∉ list_ascii_of_string l ->
  split_cr (l ++ String CR rest) = l :: split_cr rest.
Proof.
  induction l as [|c l IH]; intros Hn.
  - reflexivity.
  - simpl. rewrite IH by (intros H; apply Hn; right; exact H).
    case_decide; [subst; exfalso; apply Hn; left|reflexivity].
Qed.

Lemma split_cr_reply (lines : list string) :
  Forall (fun l => CR ∉ list_ascii_of_string l) lines ->
  split_cr (reply_of_lines lines) = lines ++ [EmptyString].
Proof.
  induction 1 as [|l lines Hl _ IH]; [reflexivity|]. simpl.
  rewrite split_cr_line by exact Hl. rewrite IH. reflexivity.
Qed.

Lemma status_line_no_cr (xs : list cell) : CR ∉ list_ascii_of_string (status_line xs).
Proof.
  unfold status_line. rewrite list_ascii_of_string_of_list_ascii.
  intros H. apply list_elem_of_In, in_map_iff in H as (x & Hx & _).
  unfold bit_char in Hx. destruct (truthy x); discriminate.
Qed.

Lemma relay_state_bit_char (x : cell) : relay_state (bit_char x) = Some (truthy x).
Proof. unfold bit_char. destruct (truthy x); reflexivity. Qed.

Lemma lift_rect (k : nat) (m : list (list bool)) :
  rectangular k m -> rectangular k (lift m).
Proof.
  intros H. apply Forall_map. eapply Forall_impl; [exact H|]. intros r Hr.
  rewrite length_map. exact Hr.
Qed.

Lemma status_reply_decodes (m : list (list bool)) (k : nat) :
  m <> [] -> 0 < k -> rectangular k m ->
  String.length (status_reply m) = (length m + 1) * k
  /\ decode_status (status_reply m) = lift m.
Proof.
  intros Hne Hk Hr.
  assert (Hne' : lift m <> []) by (destruct m; [congruence|discriminate]).
  pose proof (lift_rect k m Hr) as Hr'.
  assert (HT : transpose (lift m) = map (fun j => map (fun r => nth j r inhabitant) (lift m)) (seq 0 k))
    by (apply transpose_rect; assumption).
  split.
  - unfold status_reply. fold (lift m).
    rewrite (reply_of_lines_length (length m)).
    + rewrite length_map, HT, length_map, length_seq. lia.
    + apply Forall_forall. intros l Hl. apply list_elem_of_In, in_map_iff in Hl as (xs & <- & Hxs).
      rewrite HT in Hxs. apply in_map_iff in Hxs as (j & <- & _).
      unfold status_line. rewrite string_length_of_list, !length_map. unfold lift. rewrite length_map. reflexivity.
  - unfold decode_status, status_rows, status_reply. fold (lift m).
    rewrite split_cr_reply.
    2:{ apply Forall_map, Forall_forall. intros xs _. apply status_line_no_cr. }
    rewrite removelast_last, map_map.
    replace (map (fun x => map relay_state (list_ascii_of_string (status_line x))) (transpose (lift m)))
      with (map (map (fun x => Some (truthy x))) (transpose (lift m))).
    2:{ apply map_ext. intros xs. unfold status_line.
        rewrite list_ascii_of_string_of_list_ascii, map_map. apply map_ext.
        intros x. symmetry. apply relay_state_bit_char. }
    rewrite transpose_map, (transpose_transpose_rect k) by assumption.
    unfold lift. rewrite map_map. apply map_ext. intros r. rewrite map_map. apply map_ext. intros []; reflexivity.
Qed.

(** X3: when the instrument answers the status query with one line per
    output (the line [connections_string] prints), each ended by the read
    terminator, [connections] stores exactly that matrix and leaves the
    bytes after the [(modules + 1) * outputs] it reads unread. *)
Theorem X3_status_roundtrip (m : list (list bool)) (k : nat) (w : list string)
    (ab ec vb : bool) (cn : CytecConnections) (rest : string) :
  m <> [] -> 0 < k -> rectangular k m ->
  exists c',
    connections (mkCytec (mkResource w (status_reply m ++ rest)) (mkCytecState (length m) k ab ec vb cn))
    = inr c'
    /\ connections_of (state c') = lift m
    /\ pending (resource c') = rest.
Proof.
  intros Hne Hk Hr. destruct (status_reply_decodes m k Hne Hk Hr) as [Hlen Hdec].
  unfold connections, silenced, read_bytes, write.
  cbn [resource state answerback echo verbose pending written modules outputs].
  assert (Hle : String.length (status_reply m) <= String.length (status_reply m ++ rest))
    by (rewrite string_length_app; lia).
  destruct (false || ab || ec || vb); cbn [pending written modules outputs].
  all: rewrite <- Hlen, (decide_True _ _ Hle); cbn [rbind].
  all: rewrite substring_app_prefix, substring_app_suffix.
  all: eexists; split; [reflexivity|]; split; [exact Hdec|reflexivity].
Qed.

Lemma X3_status_roundtrip_witness :
  ([[true; false; false]; [false; true; true]] <> [] /\ 0 < 3
   /\ rectangular 3 [[true; false; false]; [false; true; true]])
  /\ exists c',
    connections (mkCytec (mkResource [] (status_reply [[true; false; false]; [false; true; true]] ++ "S"))
                         (mkCytecState 2 3 true false false []))
    = inr c'
    /\ connections_of (state c') = lift [[true; false; false]; [false; true; true]]
    /\ pending (resource c') = "S"%string.
Proof.
  assert (H1 : [[true; false; false]; [false; true; true]] <> []) by discriminate.
  assert (H2 : 0 < 3) by lia.
  assert (H3 : rectangular 3 [[true; false; false]; [false; true; true]]) by (repeat constructor).
  split; [auto|]. apply (X3_status_roundtrip [[true; false; false]; [false; true; true]] 3 [] true false false [] "S"%string); assumption.
Defined.

(** *** [set_connection] *)

Definition cell_at (c : CytecConnections) (i j : nat) : option cell :=
  c !! i ≫= fun row => row !! j.

(** The row object entry [i] of a matrix refers to, and its cells. *)
Definition row_at (c : Matrix) (i : nat) : option (list cell) :=
  row_refs c !! i ≫= fun p => row_objects c !! p.

Definition matrix_cell (c : Matrix) (i j : nat) : option cell :=
  row_at c i ≫= fun row => row !! j.

(** X4: [set_connection] raises [IndexError] exactly when the module or
    the output is out of range. *)
Theorem X4_set_connection_range (c : Matrix) (m o : nat) (v : bool) :
  set_connection c m o v = inl IndexError <-> ~ (exists row, row_at c m = Some row /\ o < length row).
Proof.
  destruct c as [objs refs]. unfold set_connection, row_at, deepcopy. cbn [row_objects row_refs].
  destruct (refs !! m) as [p|]; cbn [mbind option_bind].
  2: { split; [|reflexivity]. intros _ (row & [=] & _). }
  destruct (objs !! p) as [row|].
  2: { split; [|reflexivity]. intros _ (row & [=] & _). }
  destruct (row !! o) as [x|] eqn:Ho.
  - split; [discriminate|]. intros H. exfalso. apply H. exists row. split; [reflexivity|].
    eapply lookup_lt_Some. exact Ho.
  - split; [|reflexivity]. intros _ (row' & [= <-] & Hlt).
    apply lookup_ge_None_1 in Ho. lia.
Qed.

Lemma set_connection_ok (c c' : Matrix) (m o : nat) (v : bool) :
  set_connection c m o v = inr c' ->
  exists p row, row_refs c !! m = Some p /\ row_objects c !! p = Some row /\ o < length row
    /\ c' = mkMatrix (<[p := <[o := Some v]> row]> (row_objects c)) (row_refs c).
Proof.
  unfold set_connection, deepcopy. cbn [row_objects row_refs].
  destruct (row_refs c !! m) as [p|] eqn:Hm; [|discriminate].
  destruct (row_objects c !! p) as [row|] eqn:Hp; [|discriminate].
  destruct (row !! o) as [x|] eqn:Ho; [|discriminate]. intros [= <-].
  exists p, row. split; [first [reflexivity|exact Hm]|]. split; [first [reflexivity|exact Hp]|].
  split; [eapply lookup_lt_Some; exact Ho|reflexivity].
Qed.

(** X5: a successful [set_connection] keeps the layout and the row
    lengths, and sets cell [output] of every entry that refers to the
    same row object as entry [module] (only that entry when the rows are
    distinct objects); every other cell is unchanged. *)
Theorem X5_set_connection_cells (c c' : Matrix) (m o : nat) (v : bool) :
  set_connection c m o v = inr c' ->
  row_refs c' = row_refs c
  /\ map length (row_objects c') = map length (row_objects c)
  /\ forall i j, matrix_cell c' i j
                = if decide (row_refs c !! i = row_refs c !! m /\ j = o) then Some (Some v)
                  else matrix_cell c i j.
Proof.
  intros H. apply set_connection_ok in H as (p & row & Hm & Hp & Ho & ->).
  cbn [row_objects row_refs]. split; [reflexivity|]. split.
  - apply list_eq. intros q. rewrite !list_lookup_fmap.
    destruct (decide (q = p)) as [->|Hq].
    + rewrite list_lookup_insert_eq by (eapply lookup_lt_Some; exact Hp).
      rewrite Hp. simpl. rewrite length_insert. reflexivity.
    + rewrite list_lookup_insert_ne by congruence. reflexivity.
  - intros i j. unfold matrix_cell, row_at. cbn [row_objects row_refs]. rewrite Hm.
    destruct (row_refs c !! i) as [q|] eqn:Hi; cbn [mbind option_bind].
    + destruct (decide (q = p)) as [->|Hq].
      * rewrite list_lookup_insert_eq by (eapply lookup_lt_Some; exact Hp). rewrite Hp. simpl.
        destruct (decide (j = o)) as [->|Hj].
        -- rewrite decide_True by auto. apply list_lookup_insert_eq. exact Ho.
        -- rewrite decide_False by (intros [_ ?]; congruence). apply list_lookup_insert_ne. congruence.
      * rewrite decide_False by (intros [? _]; congruence).
        rewrite list_lookup_insert_ne by congruence. reflexivity.
    + rewrite decide_False by (intros [? _]; discriminate). reflexivity.
Qed.

Lemma X5_set_connection_cells_witness :
  set_connection (mkMatrix [[Some false; Some false]] [0; 0]) 1 0 true
    = inr (mkMatrix [[Some true; Some false]] [0; 0])
  /\ row_refs (mkMatrix [[Some true; Some false]] [0; 0]) = row_refs (mkMatrix [[Some false; Some false]] [0; 0])
  /\ map length (row_objects (mkMatrix [[Some true; Some false]] [0; 0]))
     = map length (row_objects (mkMatrix [[Some false; Some false]] [0; 0]))
  /\ forall i j, matrix_cell (mkMatrix [[Some true; Some false]] [0; 0]) i j
     = if decide (row_refs (mkMatrix [[Some false; Some false]] [0; 0]) !! i
                  = row_refs (mkMatrix [[Some false; Some false]] [0; 0]) !! 1 /\ j = 0)
       then Some (Some true)
       else matrix_cell (mkMatrix [[Some false; Some false]] [0; 0]) i j.
Proof.
  assert (H : set_connection (mkMatrix [[Some false; Some false]] [0; 0]) 1 0 true
              = inr (mkMatrix [[Some true; Some false]] [0; 0])) by reflexivity.
  split; [exact H|]. exact (X5_set_connection_cells _ _ 1 0 true H).
Defined.

(** X6: writing a cell twice keeps the second value ([latch] then
    [unlatch] of one relay is [unlatch]). *)
Theorem X6_set_connection_overwrite (c c1 : Matrix) (m o : nat) (v1 v2 : bool) :
  set_connection c m o v1 = inr c1 ->
  set_connection c1 m o v2 = set_connection c m o v2.
Proof.
  intros H. apply set_connection_ok in H as (p & row & Hm & Hp & Ho & ->).
  unfold set_connection, deepcopy. cbn [row_objects row_refs]. rewrite Hm.
  rewrite list_lookup_insert_eq by (eapply lookup_lt_Some; exact Hp).
  rewrite list_lookup_insert_eq by exact Ho. rewrite Hp.
  destruct (lookup_lt_is_Some_2 row o Ho) as [x Hx]. rewrite Hx.
  rewrite list_insert_insert_eq, list_insert_insert_eq. reflexivity.
Qed.

Lemma X6_set_connection_overwrite_witness :
  latch (mkMatrix [[Some false]] [0]) 0 0 = inr (mkMatrix [[Some true]] [0])
  /\ unlatch (mkMatrix [[Some true]] [0]) 0 0 = unlatch (mkMatrix [[Some false]] [0]) 0 0.
Proof.
  assert (H : latch (mkMatrix [[Some false]] [0]) 0 0 = inr (mkMatrix [[Some true]] [0])) by reflexivity.
  split; [exact H|].
  exact (X6_set_connection_overwrite (mkMatrix [[Some false]] [0]) (mkMatrix [[Some true]] [0]) 0 0 true false H).
Defined.

(** *** [silenced], [connections], [set_connections] *)

Definition silence_command : string := "A0 73;E0 73;V0 73".

(** X7: [silenced] sends the silence command exactly when forced or when a
    reply mode is on, then clears the three flags and keeps the rest of
    the state; silencing again without force sends nothing more. *)
Theorem X7_silenced (c : Cytec) (force : bool) :
  let s := state c in
  written (resource (silenced c force))
    = written (resource c) ++ (if force || answerback s || echo s || verbose s
                               then [silence_command] else [])
  /\ pending (resource (silenced c force)) = pending (resource c)
  /\ state (silenced c force) = mkCytecState (modules s) (outputs s) false false false (connections_of s)
  /\ silenced (silenced c force) false = silenced c force.
Proof.
  destruct c as [[w p] [m o ab ec vb cn]]. unfold silenced. cbn.
  destruct (force || ab || ec || vb); cbn; rewrite ?app_nil_r; repeat split; reflexivity.
Qed.

Lemma write_all_written (r : Resource) (cmds : list string) :
  written (write_all r cmds) = written r ++ cmds /\ pending (write_all r cmds) = pending r.
Proof.
  unfold write_all. revert r. induction cmds as [|x cmds IH]; intros r.
  - simpl. rewrite app_nil_r. split; reflexivity.
  - simpl. destruct (IH (write r x)) as [H1 H2]. rewrite H1, H2. simpl.
    rewrite <- app_assoc. split; reflexivity.
Qed.

Lemma substring_split (n : nat) (p : string) :
  n <= String.length p ->
  (substring 0 n p ++ substring n (String.length p - n) p)%string = p.
Proof.
  revert p. induction n as [|n IH]; intros p Hn.
  - rewrite Nat.sub_0_r. destruct p as [|a p']; [reflexivity|]. simpl. rewrite substring_all. reflexivity.
  - destruct p as [|a p]; simpl in Hn; [lia|]. simpl. change (String a (substring 0 n p +:+ substring n (String.length p - n) p) = String a p). f_equal. apply IH. lia.
Qed.

Lemma substring_prefix_length (n : nat) (p : string) :
  n <= String.length p -> String.length (substring 0 n p) = n.
Proof.
  revert p. induction n as [|n IH]; intros p Hn; [destruct p; reflexivity|].
  destruct p as [|a p]; simpl in Hn; [lia|]. simpl. rewrite IH by lia. reflexivity.
Qed.

Lemma substring_length_tail (n : nat) (p : string) :
  n <= String.length p ->
  String.length p = n + String.length (substring n (String.length p - n) p).
Proof.
  intros Hn. rewrite <- (substring_split n p Hn) at 1. rewrite string_length_app.
  rewrite substring_prefix_length by exact Hn. reflexivity.
Qed.

(** X8: a successful [connections] writes ["S"] after the silencing, reads
    exactly [(modules + 1) * outputs] bytes (the rest stays pending),
    stores their decoding, and leaves the dimensions as they were with the
    reply modes off. *)
Theorem X8_connections_reads (c c' : Cytec) :
  connections c = inr c' ->
  let s := state c in
  let n := (modules s + 1) * outputs s in
  written (resource c') = written (resource (silenced c false)) ++ ["S"%string]
  /\ pending (resource c) = (substring 0 n (pending (resource c)) ++ pending (resource c'))%string
  /\ String.length (pending (resource c)) = n + String.length (pending (resource c'))
  /\ state c' = mkCytecState (modules s) (outputs s) false false false
                  (decode_status (substring 0 n (pending (resource c)))).
Proof.
  destruct c as [[w p] [m o ab ec vb cn]]. cbn zeta.
  unfold connections, read_bytes, silenced, write. cbn [resource state answerback echo verbose pending written modules outputs connections_of].
  destruct (false || ab || ec || vb); cbn [pending written];
    (case_decide as Hle; [|discriminate]); cbn; intros [= <-]; cbn.
  all: split; [reflexivity|]; split; [symmetry; exact (substring_split _ p Hle)|].
  all: split; [exact (substring_length_tail _ p Hle)|reflexivity].
Qed.

Lemma X8_connections_reads_witness :
  connections (mkCytec (mkResource [] (status_10_01 ++ "01")) (mkCytecState 2 2 false false false []))
  = inr (mkCytec (mkResource ["S"] "01") (mkCytecState 2 2 false false false
          [[Some true; Some false]; [Some false; Some true]]))
  /\ (let c := mkCytec (mkResource [] (status_10_01 ++ "01")) (mkCytecState 2 2 false false false []) in
      let c' := mkCytec (mkResource ["S"] "01") (mkCytecState 2 2 false false false
                  [[Some true; Some false]; [Some false; Some true]]) in
      let s := state c in
      let n := (modules s + 1) * outputs s in
      written (resource c') = written (resource (silenced c false)) ++ ["S"%string]
      /\ pending (resource c) = (substring 0 n (pending (resource c)) ++ pending (resource c'))%string
      /\ String.length (pending (resource c)) = n + String.length (pending (resource c'))
      /\ state c' = mkCytecState (modules s) (outputs s) false false false
                      (decode_status (substring 0 n (pending (resource c))))).
Proof.
  assert (H : connections (mkCytec (mkResource [] (status_10_01 ++ "01")) (mkCytecState 2 2 false false false []))
              = inr (mkCytec (mkResource ["S"] "01") (mkCytecState 2 2 false false false
                       [[Some true; Some false]; [Some false; Some true]]))) by reflexivity.
  split; [exact H|]. exact (X8_connections_reads _ _ H).
Defined.

Lemma silenced_pending (c : Cytec) (force : bool) :
  pending (resource (silenced c force)) = pending (resource c).
Proof.
  unfold silenced. destruct (_ || _); reflexivity.
Qed.

(** X9: without the read before and the read after, a [set_connections]
    that returns has written the silencing (if any) and then every packed
    frame in order, read nothing, and returns the caller's state with the
    target matrix stored: the reply-mode flags of that state are not
    cleared, although the silence command was sent. *)
Theorem X9_set_connections_unverified (c c' : Cytec) (new : CytecConnections) :
  set_connections c new false false = inr c' ->
  exists cmds,
    commands (connections_of (state c)) new = inr cmds
    /\ written (resource c') = written (resource (silenced c false))
                               ++ packed_commands (grouped_commands cmds)
    /\ pending (resource c') = pending (resource c)
    /\ state c' = with_connections (state c) new.
Proof.
  unfold set_connections, set_connections_go.
  destruct (commands (connections_of (state c)) new) as [e|cmds] eqn:Hc; cbn [rbind];
    [discriminate|].
  intros [= <-]. exists cmds. split; [reflexivity|]. cbv zeta. cbn [resource state].
  destruct (write_all_written (resource (silenced c false)) (packed_commands (grouped_commands cmds)))
    as [Hw Hp].
  split; [exact Hw|]. split; [|reflexivity].
  transitivity (pending (resource (silenced c false))); [exact Hp|apply silenced_pending].
Qed.

Lemma X9_set_connections_unverified_witness :
  exists c',
    set_connections (mkCytec (mkResource [] EmptyString)
                       (mkCytecState 1 2 true false false [[Some false; Some true]]))
                    [[Some true; Some true]] false false = inr c'
    /\ exists cmds,
         commands [[Some false; Some true]] [[Some true; Some true]] = inr cmds
         /\ written (resource c') = written (resource (silenced (mkCytec (mkResource [] EmptyString)
                       (mkCytecState 1 2 true false false [[Some false; Some true]])) false))
                                    ++ packed_commands (grouped_commands cmds)
         /\ pending (resource c') = EmptyString
         /\ state c' = with_connections (mkCytecState 1 2 true false false [[Some false; Some true]])
                         [[Some true; Some true]].
Proof.
  eexists. split; [reflexivity|].
  apply (X9_set_connections_unverified
           (mkCytec (mkResource [] EmptyString)
                    (mkCytecState 1 2 true false false [[Some false; Some true]]))).
  reflexivity.
Defined.

(** X10: with [update_connections_first] the diff is taken against the
    freshly read status, so the matrix stored in the session has no
    influence on the outcome. *)
Theorem X10_update_first_ignores_stored (r : Resource) (m o : nat) (ab ec vb : bool)
    (cn1 cn2 new : CytecConnections) (verify_after : bool) :
  set_connections (mkCytec r (mkCytecState m o ab ec vb cn1)) new true verify_after
  = set_connections (mkCytec r (mkCytecState m o ab ec vb cn2)) new true verify_after.
Proof.
  unfold set_connections, connections, silenced. cbn [resource state modules outputs
    answerback echo verbose connections_of]. reflexivity.
Qed.

(** Where the diff looks: the cells of two matrices at the same place. *)
Lemma row_commands_type_error (i j : nat) (xs ys : list cell) :
  row_commands i j xs ys = inl TypeError
  <-> exists k p q, xs !! k = Some p /\ ys !! k = Some q /\ (p = None \/ q = None).
Proof.
  revert j ys. induction xs as [|p xs IH]; intros j [|q ys]; simpl.
  - split; [discriminate|]. intros (k & ? & ? & H & _). rewrite lookup_nil in H. discriminate.
  - split; [discriminate|]. intros (k & ? & ? & H & _). rewrite lookup_nil in H. discriminate.
  - split; [discriminate|]. intros (k & ? & ? & _ & H & _). rewrite lookup_nil in H. discriminate.
  - destruct (cell_xor p q) as [e|d] eqn:Hx; simpl.
    + split; intros _; [|f_equal; destruct p as [[]|], q as [[]|]; simpl in Hx; congruence].
      exists 0, p, q. split; [reflexivity|]. split; [reflexivity|].
      destruct p as [[]|], q as [[]|]; simpl in Hx; try discriminate; auto.
    + assert (Hpq : p <> None /\ q <> None)
        by (destruct p as [[]|], q as [[]|]; simpl in Hx; split; congruence).
      transitivity (row_commands i (S j) xs ys = inl TypeError).
      * destruct (row_commands i (S j) xs ys) as [e|]; simpl; split; intros H; try discriminate.
        -- exact H.
        -- exact H.
      * rewrite IH. split.
        -- intros (k & p' & q' & H1 & H2 & H3). exists (S k), p', q'. auto.
        -- intros ([|k] & p' & q' & H1 & H2 & H3); simpl in H1, H2.
           ++ injection H1 as <-. injection H2 as <-. tauto.
           ++ exists k, p', q'. auto.
Qed.

Lemma diff_commands_type_error (i : nat) (cur new : CytecConnections) :
  diff_commands i cur new = inl TypeError
  <-> exists a b p q, cell_at cur a b = Some p /\ cell_at new a b = Some q
                      /\ (p = None \/ q = None).
Proof.
  unfold cell_at. revert i new. induction cur as [|xs cur IH]; intros i [|ys new]; simpl.
  - split; [discriminate|]. intros (a & b & ? & ? & H1 & H2 & _). destruct a; simpl in H1, H2; discriminate.
  - split; [discriminate|]. intros (a & b & ? & ? & H1 & H2 & _). destruct a; simpl in H1, H2; discriminate.
  - split; [discriminate|]. intros (a & b & ? & ? & H1 & H2 & _). destruct a; simpl in H1, H2; discriminate.
  - destruct (row_commands i 0 xs ys) as [e|r] eqn:Hr; simpl.
    + pose proof (row_commands_error _ _ _ _ _ Hr) as ->.
      apply row_commands_type_error in Hr as (k & p & q & H1 & H2 & H3).
      split; [intros _|reflexivity]. exists 0, k, p, q. simpl. auto.
    + transitivity (diff_commands (S i) cur new = inl TypeError).
      * destruct (diff_commands (S i) cur new); simpl; split; intros H; try discriminate; exact H.
      * rewrite IH. split.
        -- intros (a & b & p & q & H1 & H2 & H3). exists (S a), b, p, q. auto.
        -- intros ([|a] & b & p & q & H1 & H2 & H3); simpl in H1, H2.
           ++ exfalso. assert (Hrow : row_commands i 0 xs ys = inl TypeError)
                by (apply row_commands_type_error; exists b, p, q; auto).
              congruence.
           ++ exists a, b, p, q. auto.
Qed.

(** X11: the diff of [set_connections] fails exactly when a cell of the
    overlap of the two matrices is unknown ([None]) on either side, and
    it then fails with [TypeError] (Python's [None ^ bool]). *)
Theorem X11_diff_type_error (cur new : CytecConnections) :
  (commands cur new = inl TypeError
   <-> exists a b p q, cell_at cur a b = Some p /\ cell_at new a b = Some q
                       /\ (p = None \/ q = None))
  /\ (forall e, commands cur new = inl e -> e = TypeError).
Proof.
  split.
  - apply diff_commands_type_error.
  - intros e. apply diff_commands_error.
Qed.

(** X12: [zip] truncates: the diff only looks at the rows present in both
    matrices, and in each such row at the columns present in both; relays
    outside that overlap are neither switched nor checked. *)
Definition overlap (xss yss : CytecConnections) : CytecConnections :=
  zip_with (fun xs ys => take (length ys) xs) xss yss.

Lemma row_commands_overlap (i j : nat) (xs ys : list cell) :
  row_commands i j xs ys = row_commands i j (take (length ys) xs) (take (length xs) ys).
Proof.
  revert j ys. induction xs as [|p xs IH]; intros j [|q ys]; simpl; try reflexivity.
  rewrite (IH (S j) ys). reflexivity.
Qed.

Theorem X12_diff_overlap (cur new : CytecConnections) :
  commands cur new = commands (overlap cur new) (overlap new cur).
Proof.
  unfold commands, overlap. generalize 0. revert new.
  induction cur as [|xs cur IH]; intros [|ys new] i; simpl; try reflexivity.
  rewrite <- row_commands_overlap, <- IH. reflexivity.
Qed.

(** Adjacent frames of [splitsum]: the later one starts with an item that
    did not fit in the earlier one. *)
Definition cut_ok {A} (maximum_sum : nat) (on : A -> nat) (fs : list (list A)) : Prop :=
  forall pre f g post, fs = pre ++ f :: g :: post ->
    exists y g', g = y :: g' /\ maximum_sum < frame_sum on f + on y.

Lemma snoc_cases {A} (pre post : list A) (f g : A) (ys : list A) (z : A) :
  pre ++ f :: g :: post = ys ++ [z] ->
  (post = [] /\ g = z /\ pre ++ [f] = ys)
  \/ exists post', post = post' ++ [z] /\ pre ++ f :: g :: post' = ys.
Proof.
  intros H. destruct post as [|w post'] using rev_ind.
  - left. replace (pre ++ [f; g]) with ((pre ++ [f]) ++ [g]) in H
      by (rewrite <- app_assoc; reflexivity).
    apply app_inj_tail in H as [H1 H2]. auto.
  - right. clear IHpost'. replace (pre ++ f :: g :: post' ++ [w]) with ((pre ++ f :: g :: post') ++ [w]) in H
      by (rewrite <- app_assoc; reflexivity).
    apply app_inj_tail in H as [H1 H2]. subst. eauto.
Qed.

Lemma splitsum_fold_cuts {A} (maximum_sum : nat) (on : A -> nat) (xs : list A) :
  exists init last,
    fold_left (splitsum_step maximum_sum on) xs ([[]], 0) = (init ++ [last], frame_sum on last)
    /\ cut_ok maximum_sum on (init ++ [last]).
Proof.
  induction xs as [|x xs IH] using rev_ind.
  - exists [], []. split; [reflexivity|].
    intros pre f g post H. destruct pre as [|? [|]]; discriminate.
  - destruct IH as (init & last & Hf & Hcut).
    rewrite fold_left_app, Hf. simpl. case_decide as Hlt.
    + exists (init ++ [last]), [x]. split; [unfold frame_sum; simpl; f_equal; lia|].
      intros pre f g post H. symmetry in H. apply snoc_cases in H as [(-> & -> & H)|(post' & -> & H)].
      * apply app_inj_tail in H as [_ <-]. exists x, []. split; [reflexivity|exact Hlt].
      * exact (Hcut pre f g post' (eq_sym H)).
    + exists init, (last ++ [x]). rewrite append_last_snoc.
      split; [unfold frame_sum; rewrite sum_list_with_app; simpl; f_equal; lia|].
      intros pre f g post H. symmetry in H. apply snoc_cases in H as [(-> & -> & H)|(post' & -> & H)].
      * destruct (Hcut pre f last [])
          as (y & g' & -> & Hy); [rewrite <- H, <- app_assoc; reflexivity|].
        exists y, (g' ++ [x]). split; [reflexivity|exact Hy].
      * destruct (Hcut pre f g (post' ++ [last])) as (y & g' & Hg & Hy);
          [rewrite <- H, <- app_assoc; reflexivity|].
        exists y, g'. auto.
Qed.

(** X13: [splitsum] is greedy: every frame after the first is nonempty,
    and its first item did not fit into the frame before it (it would
    have taken that frame's sum over [maximum_sum]). *)
Theorem X13_splitsum_greedy {A} (xs : list A) (maximum_sum : nat) (on : A -> nat)
    (pre post : list (list A)) (f g : list A) :
  splitsum xs maximum_sum on = pre ++ f :: g :: post ->
  exists y g', g = y :: g' /\ maximum_sum < frame_sum on f + on y.
Proof.
  intros H. unfold splitsum in H.
  destruct (splitsum_fold_cuts maximum_sum on xs) as (init & last & Hf & Hcut).
  rewrite Hf in H. exact (Hcut pre f g post H).
Qed.

Lemma X13_splitsum_greedy_witness :
  splitsum [3; 4; 2; 5] 6 id = [] ++ [3] :: [4; 2] :: [[5]]
  /\ exists y g', [4; 2] = y :: g' /\ 6 < frame_sum id [3] + id y.
Proof.
  assert (H : splitsum [3; 4; 2; 5] 6 id = [] ++ [3] :: [4; 2] :: [[5]]) by reflexivity.
  split; [exact H|]. exact (X13_splitsum_greedy [3; 4; 2; 5] 6 id [] [[5]] [3] [4; 2] H).
Defined.

(** X14: the answerback probe of [from_serial_resource] succeeds exactly
    when the instrument answers ["0"] at once, or after one framing
    error; the query is then sent once or twice.  A [VisaIOError] escapes
    the handler only when the retried query fails again. *)
Theorem X14_probe_outcomes (p p' : Port) :
  (probe p = inr p'
   <-> exists es,
         (port_events p = Answer "0" :: es
          /\ p' = mkPort (port_written p ++ [answerback_only]) es)
         \/ (port_events p = Fault true :: Answer "0" :: es
             /\ p' = mkPort (port_written p ++ [answerback_only; answerback_only]) es))
  /\ (probe p = inl InitVisaIOError
      <-> exists es, port_events p = Fault true :: es
                     /\ (es = [] \/ exists fr es', es = Fault fr :: es')).
Proof.
  destruct p as [w evs]. unfold probe, port_query, port_write, next_event. cbn [port_events port_written].
  destruct evs as [|[rv|[]] es]; cbn [port_events port_written].
  - split; split; try discriminate.
    + intros (es & [[H _]|[H _]]); discriminate.
    + intros (es & H & _). discriminate.
  - case_decide as Hrv; subst; (split; split; [| |discriminate|]).
    + intros H. injection H as <-. exists es. left. split; reflexivity.
    + intros (es' & [[H ->]|[H _]]); [|discriminate]. injection H as <-. reflexivity.
    + intros (es' & H & _). discriminate.
    + discriminate.
    + intros (es' & [[H _]|[H _]]); [|discriminate]. injection H as H1 H2. congruence.
    + intros (es' & H & _). discriminate.
  - destruct es as [|[rv2|fr2] es2]; cbn [port_events port_written].
    + split; split; [discriminate| | |intros _; reflexivity].
      * intros (es & [[H _]|[H _]]); discriminate.
      * intros _. exists []. split; [reflexivity|left; reflexivity].
    + case_decide as Hrv; subst; (split; split; [| |discriminate|]).
      * intros H. injection H as <-. exists es2. right. split; [reflexivity|].
        rewrite <- app_assoc. reflexivity.
      * intros (es' & [[H _]|[H ->]]); [discriminate|]. injection H as <-.
        rewrite <- app_assoc. reflexivity.
      * intros (es' & H & [H'|(fr & es'' & H')]); injection H as <-; discriminate.
      * discriminate.
      * intros (es' & [[H _]|[H _]]); [discriminate|]. injection H as H1 H2. congruence.
      * intros (es' & H & [H'|(fr & es'' & H')]); injection H as <-; discriminate.
    + split; split; [discriminate| | |intros _; reflexivity].
      * intros (es & [[H _]|[H _]]); discriminate.
      * intros _. exists (Fault fr2 :: es2). split; [reflexivity|right; eauto].
  - split; split; try discriminate.
    + intros (es' & [[H _]|[H _]]); discriminate.
    + intros (es' & H & _). discriminate.
Qed.

(** X15: the configuration step never lets a [VisaIOError] escape (a
    timeout or a VISA fault becomes [CytecInitializationError]); it
    succeeds exactly when the next answer starts with the three
    acknowledgements ["0\r0\r0\r"], after writing [system_config] once,
    and bytes after them stay to be read. *)
Theorem X15_configure (p p' : Port) (s : CytecState) :
  configure p s <> inl InitVisaIOError
  /\ (configure p s = inr p'
      <-> exists rest es,
            port_events p = Answer (config_ack ++ rest) :: es
            /\ p' = mkPort (port_written p ++ [system_config s])
                           (match rest with EmptyString => es | _ => Answer rest :: es end)).
Proof.
  destruct p as [w evs]. unfold configure, port_read_bytes, port_write, next_event.
  cbn [port_events port_written]. change (2 * 3) with 6.
  destruct evs as [|[a|fr] es]; cbn [port_events port_written].
  - split; [discriminate|]. split; [discriminate|]. intros (? & ? & H & _). discriminate.
  - case_decide as Hle.
    + case_decide as Hack.
      * split; [discriminate|].
        assert (Ha : a = (config_ack ++ substring 6 (String.length a - 6) a)%string)
          by (rewrite <- Hack; symmetry; exact (substring_split 6 a Hle)).
        split.
        -- intros H. injection H as <-.
           exists (substring 6 (String.length a - 6) a), es. split; [rewrite <- Ha; reflexivity|].
           destruct (substring 6 (String.length a - 6) a); reflexivity.
        -- intros (rest & es' & H & ->). injection H as Harest <-.
           assert (Hrest : substring 6 (String.length a - 6) a = rest).
           { rewrite Harest. exact (substring_app_suffix config_ack rest). }
           rewrite Hrest. destruct rest; reflexivity.
      * split; [discriminate|]. split; [discriminate|].
        intros (rest & es' & H & _). injection H as Harest _. exfalso. apply Hack.
        rewrite Harest. exact (substring_app_prefix config_ack rest).
    + split; [discriminate|]. split; [discriminate|].
      intros (rest & es' & H & _). injection H as Harest _. exfalso. apply Hle.
      rewrite Harest, string_length_app. cbn. lia.
  - split; [discriminate|]. split; [discriminate|]. intros (? & ? & H & _). discriminate.
Qed.

Lemma concat_semicolon_length (ts : list string) :
  ts <> [] ->
  String.length (String.concat ";" ts) + 1 = sum_list_with (fun t => String.length t + 1) ts.
Proof.
  induction ts as [|t ts IH]; intros Hne; [congruence|].
  destruct ts as [|t' ts].
  - simpl. lia.
  - change (String.concat ";" (t :: t' :: ts)) with (t ++ ";" ++ String.concat ";" (t' :: ts))%string.
    rewrite !string_length_app. cbn [String.length sum_list_with].
    cbn [sum_list_with] in IH. rewrite <- IH by discriminate. lia.
Qed.

(** X16: every command [set_connections] writes (a frame joined with
    [";"]) is shorter than [MAX_COMMAND_LENGTH], unless it is one single
    token that is itself that long or longer. *)
Theorem X16_command_length (toks : list string) (w : string) :
  w ∈ packed_commands toks ->
  String.length w < MAX_COMMAND_LENGTH
  \/ (w ∈ toks /\ MAX_COMMAND_LENGTH <= String.length w).
Proof.
  intros Hw. unfold packed_commands in Hw.
  apply list_elem_of_In, in_map_iff in Hw as (f & <- & Hf).
  apply list_elem_of_In in Hf.
  assert (Hs : Forall (fun x => snd x = String.length (fst x) + 1) f).
  { apply Forall_forall. intros x Hx. eapply packs_snd; [exact Hf|exact Hx]. }
  pose proof (splitsum_frames_ok MAX_COMMAND_LENGTH snd
                (map (fun t => (t, String.length t + 1)) toks)) as Hok.
  eapply Forall_forall in Hok; [|exact Hf].
  destruct Hok as [Hle|(x & -> & Hx)].
  - left. unfold frame_sum in Hle. rewrite frame_sum_tokens in Hle by exact Hs.
    destruct f as [|y f]; [cbn; unfold MAX_COMMAND_LENGTH; lia|].
    rewrite <- concat_semicolon_length in Hle by discriminate. lia.
  - right. cbn. inversion Hs as [|? ? Hx' _]. rewrite Hx' in Hx. split; [|lia].
    assert (Hin : x ∈ concat (packs toks)).
    { apply list_elem_of_In, in_concat. exists [x]. split; [apply list_elem_of_In; exact Hf|left; reflexivity]. }
    unfold packs in Hin. rewrite splitsum_concat in Hin.
    apply list_elem_of_In, in_map_iff in Hin as (t & <- & Ht).
    apply list_elem_of_In. exact Ht.
Qed.

Lemma X16_command_length_witness :
  "L0 0;L1 1"%string ∈ packed_commands ["L0 0"; "L1 1"]%string
  /\ (String.length "L0 0;L1 1" < MAX_COMMAND_LENGTH
      \/ ("L0 0;L1 1"%string ∈ ["L0 0"; "L1 1"]%string
          /\ MAX_COMMAND_LENGTH <= String.length "L0 0;L1 1")).
Proof.
  assert (H : "L0 0;L1 1"%string ∈ packed_commands ["L0 0"; "L1 1"]%string)
    by (vm_compute; left).
  split; [exact H|]. exact (X16_command_length _ _ H).
Defined.

(** X17: [connections_string] only shows whether a relay is known to be
    connected: an unknown cell prints as ["0"] like a disconnected one,
    so the string is that of the matrix with every unknown cell
    replaced by [False]. *)
Theorem X17_connections_string_unknown_as_open (c : CytecConnections) :
  connections_string c = connections_string (map (map (fun x => Some (truthy x))) c).
Proof.
  unfold connections_string. rewrite transpose_map, map_map. f_equal.
  apply map_ext. intros xs. unfold status_line. rewrite map_map. f_equal.
  apply map_ext. intros [[]|]; reflexivity.
Qed.

(** X18: the status read of [connections] fails exactly when fewer than
    [(modules + 1) * outputs] bytes are waiting, and it then fails with
    [VisaIOError] (the read timing out). *)
Theorem X18_connections_fails_short_read (c : Cytec) :
  connections c = inl VisaIOError
  <-> String.length (pending (resource c)) < (modules (state c) + 1) * outputs (state c).
Proof.
  destruct c as [[w p] [m o ab ec vb cn]].
  unfold connections, read_bytes, silenced, write. cbn.
  destruct ab, ec, vb; cbn; case_decide as H; cbn; split; try discriminate; try lia; reflexivity.
Qed.

(** X19: [set_connections] only ever fails with the [TypeError] of the
    diff or a [VisaIOError]; it never raises [IndexError] or
    [CytecSwitchingError]. *)
Theorem X19_set_connections_errors (c : Cytec) (new : CytecConnections) (first verify : bool) (e : error) :
  set_connections c new first verify = inl e -> e = TypeError \/ e = VisaIOError.
Proof.
  assert (Hgo : forall c0 v e, set_connections_go c0 new v = inl e -> e = TypeError \/ e = VisaIOError).
  { intros c0 v e'. unfold set_connections_go.
    destruct (commands (connections_of (state c0)) new) as [e''|cmds] eqn:Hc; cbn [rbind].
    - intros [= <-]. left. exact (diff_commands_error _ _ _ _ Hc).
    - destruct v; [|discriminate]. intros H. right. exact (connections_error _ _ H). }
  unfold set_connections. destruct first; [|apply Hgo].
  destruct (connections c) as [e'|c1] eqn:Hc; cbn [rbind]; [|apply Hgo].
  intros [= <-]. right. exact (connections_error _ _ Hc).
Qed.

Lemma X19_set_connections_errors_witness :
  set_connections (mkCytec (mkResource [] EmptyString) (mkCytecState 1 1 false false false [[None]]))
                  [[Some true]] false false = inl TypeError
  /\ (TypeError = TypeError \/ TypeError = VisaIOError).
Proof.
  assert (H : set_connections (mkCytec (mkResource [] EmptyString)
                                       (mkCytecState 1 1 false false false [[None]]))
                              [[Some true]] false false = inl TypeError) by reflexivity.
  split; [exact H|]. exact (X19_set_connections_errors _ _ _ _ _ H).
Defined.
